(** * NestJs-Template: the user store and the authentication flow

    A shallow embedding of
      - [src/modules/user/schemas/user.schema.ts]  (the [User] document, the
        pre-save hook, [comparePassword]),
      - [src/modules/user/user.service.ts]          ([UserService]),
      - the [AuthService] class                      (register, login, logout,
        refreshTokens, token generation),
      - the three passport strategies, the [auth] configuration factory,
        [cookie.util.ts] and [http-exception.filter.ts].

    Two revisions of [user.service.ts] / [user.schema.ts] are present; they
    differ only in two name fields ([firstName], [lastName]) that are copied
    through unchanged.  The embedding follows the revision whose
    [CreateUserDto] and [AuthService] are present (no name fields).

    Conventions.
      - [async]/[await] is sequencing; a thrown exception aborts the rest of
        the method.  Both are rendered by the monad [M] below.
      - [bcrypt], [JwtService] and the clock are libraries outside the
        repository: they are interfaces (type classes), and the salts that
        [bcrypt.hash] draws are read from a tape indexed by a counter kept in
        the world.
      - A field that may be [undefined] or [null] is an [option]. *)

From Stdlib Require Import NArith Lia.
From stdpp Require Import base option list strings pretty gmap.

Open Scope string_scope.
Open Scope N_scope.

(* ================================================================== *)
(** ** JavaScript values *)

(** [a || b] on a possibly undefined string: the empty string is falsy. *)
Definition js_or (a : option string) (b : string) : string :=
  match a with
  | Some s => if decide (s = "") then b else s
  | None => b
  end.

(** Truthiness of a possibly absent string ([!x] is its negation). *)
Definition truthy (a : option string) : bool :=
  match a with
  | Some s => bool_decide (s ≠ "")
  | None => false
  end.

(* ================================================================== *)
(** ** Exceptions *)

(** The body [HttpException.getResponse()] returns: a bare string, or an
    object that may carry a [message]. *)
Inductive ExceptionResponse :=
| ResponseString (s : string)
| ResponseObject (message : option string).

Record HttpException := mkHttpException {
  exn_name : string;
  exn_status : N;
  exn_message : string;
  exn_response : ExceptionResponse;
  exn_stack : string
}.

(** What a method can throw: an [HttpException] of the framework, or a plain
    JavaScript [Error]. *)
Inductive Exception :=
| Http (h : HttpException)
| Error (message : string).

(** [new ConflictException(msg)] and [new UnauthorizedException(msg)]: the
    framework builds the response object [{statusCode, message, error}]. *)
Definition ConflictException (msg : string) : Exception :=
  Http {| exn_name := "ConflictException"; exn_status := 409;
          exn_message := msg; exn_response := ResponseObject (Some msg);
          exn_stack := "" |}.

Definition UnauthorizedException (msg : string) : Exception :=
  Http {| exn_name := "UnauthorizedException"; exn_status := 401;
          exn_message := msg; exn_response := ResponseObject (Some msg);
          exn_stack := "" |}.

Definition is_unauthorized (e : Exception) : bool :=
  match e with
  | Http h => exn_status h =? 401
  | Error _ => false
  end.

(* ================================================================== *)
(** ** The data model ([user.schema.ts], [user.types.ts]) *)

(** Mongoose's [ObjectId].  [toString()] and the cast back that [findById]
    performs are inverse renderings of one id and are left implicit. *)
Definition ObjectId := N.

Inductive UserRole := ADMIN | USER | MODERATOR.

(** [enum UserRole { ADMIN = 'admin', USER = 'user', MODERATOR = 'moderator' }] *)
Definition role_value (r : UserRole) : string :=
  match r with
  | ADMIN => "admin"
  | USER => "user"
  | MODERATOR => "moderator"
  end.

(** A stored document of [class User] (the declared props). *)
Record User := mkUser {
  _id : ObjectId;
  email : string;
  password : string;
  refreshToken : option string;
  role : UserRole;
  isActive : bool
}.

(** A document as a query hands it back: the projection may have left the
    password out. *)
Record UserDocument := mkUserDocument {
  doc_id : ObjectId;
  doc_email : string;
  doc_password : option string;
  doc_refreshToken : option string;
  doc_role : UserRole;
  doc_isActive : bool
}.

(** [interface UserWithoutPassword] *)
Record UserWithoutPassword := mkUserWithoutPassword {
  view_id : ObjectId;
  view_email : string;
  view_role : string;
  view_isActive : bool;
  view_refreshToken : option string
}.

(** [interface JwtPayload] *)
Record JwtPayload := mkJwtPayload {
  sub : ObjectId;
  payload_email : string;
  payload_role : string
}.

(** [interface AuthenticatedUser] *)
Record AuthenticatedUser := mkAuthenticatedUser {
  userId : ObjectId;
  au_email : string;
  au_role : string
}.

(** [class CreateUserDto] (the optional [refreshToken] is never read). *)
Record CreateUserDto := mkCreateUserDto {
  dto_email : string;
  dto_password : string;
  dto_role : option UserRole
}.

(** [RegisterDto] and [LoginDto]: [{email, password}]. *)
Record Credentials := mkCredentials {
  cred_email : string;
  cred_password : string
}.

(* ================================================================== *)
(** ** The world and the monad of the service methods *)

(** The collection in insertion order, the number of salts drawn from the
    tape so far, and the reading of the clock. *)
Record World := mkWorld {
  users : list User;
  drawn : nat;
  now : N
}.

Definition Result (A : Type) : Type := Exception + A.

Definition M (A : Type) : Type := World → Result A * World.

Definition ret {A} (a : A) : M A := λ w, (inr a, w).

Definition throw {A} (e : Exception) : M A := λ w, (inl e, w).

Definition bind {A B} (m : M A) (k : A → M B) : M B :=
  λ w, match m w with
       | (inr a, w') => k a w'
       | (inl e, w') => (inl e, w')
       end.

Notation "'let!' x ':=' m 'in' k" := (bind m (λ x, k))
  (at level 10, x name, m at level 100, k at level 200).

Definition get_users : M (list User) := λ w, (inr (users w), w).

Definition put_users (c : list User) : M unit :=
  λ w, (inr tt, {| users := c; drawn := drawn w; now := now w |}).

(* ================================================================== *)
(** ** Libraries the services are injected with *)

(** [bcrypt].  [bcrypt.hash(data, rounds)] draws a salt and returns the
    encoded hash; [hashSync data rounds salt] is that result once the salt
    is fixed, [genSalt n] the [n]-th salt of the tape. *)
Class Bcrypt := {
  Salt : Type;
  genSalt : nat → Salt;
  hashSync : string → N → Salt → string;
  compareSync : string → string → bool
}.

(** The first [n] bytes of a string. *)
Fixpoint string_take (n : nat) (s : string) : string :=
  match n, s with
  | S n', String c s' => String c (string_take n' s')
  | _, _ => ""
  end.

(** What bcrypt reads of its input: the first 72 bytes, and no more. *)
Definition bcrypt_input (d : string) : string := string_take 72 d.

(** What the proofs use of bcrypt.  A hash matches its own plaintext; hashing
    and comparing read the first 72 bytes of the data only; an encoded hash
    is not empty, is not its own plaintext, and a string does not match the
    hash of its own hash.  Nothing says that two different plaintexts have
    different hashes. *)
Class BcryptContract `{Bcrypt} : Prop := {
  compare_hash : ∀ d r s, compareSync d (hashSync d r s) = true;
  hash_reads_72 : ∀ d r s, hashSync d r s = hashSync (bcrypt_input d) r s;
  compare_reads_72 : ∀ d h, compareSync d h = compareSync (bcrypt_input d) h;
  hash_not_plain : ∀ d r s, hashSync d r s ≠ d;
  hash_nonempty : ∀ d r s, hashSync d r s ≠ "";
  compare_rehash :
    ∀ d r s r' s', compareSync d (hashSync (hashSync d r s) r' s') = false
}.

(** The options [JwtService.signAsync] is called with. *)
Record SignOptions := mkSignOptions {
  secret : string;
  expiresIn : string
}.

(** [JwtService]: the token for a payload, the options and the issue time. *)
Class JwtService := {
  sign : JwtPayload → SignOptions → N → string
}.

(** [bcrypt.hash(data, rounds)] and [bcrypt.compare(data, encrypted)]. *)
Definition bcrypt_hash `{Bcrypt} (data : string) (rounds : N) : M string :=
  λ w, (inr (hashSync data rounds (genSalt (drawn w))),
        {| users := users w; drawn := S (drawn w); now := now w |}).

Definition bcrypt_compare `{Bcrypt} (data encrypted : string) : M bool :=
  ret (compareSync data encrypted).

(** [jwtService.signAsync(payload, options)]. *)
Definition signAsync `{JwtService} (p : JwtPayload) (o : SignOptions) : M string :=
  λ w, (inr (sign p o (now w)), w).

(* ================================================================== *)
(** ** Configuration ([auth.config.ts]) *)

Record JwtConfig := mkJwtConfig {
  accessTokenSecret : string;
  accessTokenExpiration : string;
  refreshTokenSecret : string;
  refreshTokenExpiration : string
}.

(** [registerAs('auth', () => ({ jwt: {...} }))] over [process.env]. *)
Definition authConfig (env : gmap string string) : JwtConfig :=
  {| accessTokenSecret :=
       js_or (env !! "ACCESS_TOKEN_SECRET") "default_access_token_secret";
     accessTokenExpiration := js_or (env !! "ACCESS_TOKEN_EXPIRATION") "15m";
     refreshTokenSecret :=
       js_or (env !! "REFRESH_TOKEN_SECRET") "default_refresh_token_secret";
     refreshTokenExpiration := js_or (env !! "REFRESH_TOKEN_EXPIRATION") "7d" |}.

(* ================================================================== *)
(** ** Mongoose queries on the [User] model *)

(** The projection of a query: none, [select('-password')] or
    [select('+password')]. *)
Inductive Select := SelectDefault | MinusPassword | PlusPassword.

(** [@Prop({ required: true }) password]: the schema does not set
    [select: false], so the path is selected by default. *)
Definition password_selected_by_schema : bool := true.

Definition selects_password (s : Select) : bool :=
  match s with
  | SelectDefault => password_selected_by_schema
  | MinusPassword => false
  | PlusPassword => true
  end.

(** The document a query with projection [s] builds from a stored record. *)
Definition hydrate (s : Select) (u : User) : UserDocument :=
  {| doc_id := _id u;
     doc_email := email u;
     doc_password := if selects_password s then Some (password u) else None;
     doc_refreshToken := refreshToken u;
     doc_role := role u;
     doc_isActive := isActive u |}.

Definition has_email (e : string) (u : User) : bool := bool_decide (email u = e).
Definition has_id (i : ObjectId) (u : User) : bool := _id u =? i.

(** [Model.findOne({ email })]: the first document in natural order. *)
Definition model_findOne (e : string) (s : Select) : M (option UserDocument) :=
  let! c := get_users in
  ret (hydrate s <$> find (has_email e) c).

(** [Model.findById(id)]. *)
Definition model_findById (i : ObjectId) (s : Select) : M (option UserDocument) :=
  let! c := get_users in
  ret (hydrate s <$> find (has_id i) c).

(** [Model.find()]. *)
Definition model_find (s : Select) : M (list UserDocument) :=
  let! c := get_users in
  ret (hydrate s <$> c).

(** The update of [findByIdAndUpdate(id, { refreshToken: v })] on the
    collection: the first document with that id, none when there is no such
    document. *)
Fixpoint update_by_id (i : ObjectId) (f : User → User) (c : list User) : list User :=
  match c with
  | [] => []
  | u :: c' => if has_id i u then f u :: c' else u :: update_by_id i f c'
  end.

Definition set_refreshToken (v : option string) (u : User) : User :=
  {| _id := _id u; email := email u; password := password u;
     refreshToken := v; role := role u; isActive := isActive u |}.

Definition model_findByIdAndUpdate_refreshToken
    (i : ObjectId) (v : option string) : M unit :=
  let! c := get_users in
  put_users (update_by_id i (set_refreshToken v) c).

(** The [_id] that [new this.userModel(...)] assigns: an id no document of
    the collection has. *)
Definition newObjectId (c : list User) : ObjectId :=
  N.succ (foldr N.max 0 (_id <$> c)).

(** The pre-save hook: a new document has its password path modified, so the
    password is replaced by its hash. *)
Definition pre_save `{Bcrypt} (u : User) : M User :=
  let saltRounds := 10 in
  let! hash := bcrypt_hash (password u) saltRounds in
  ret {| _id := _id u; email := email u; password := hash;
         refreshToken := refreshToken u; role := role u;
         isActive := isActive u |}.

(** [@Prop({ required: true })] on a string path: the empty string does not
    pass (an absent value does not arise, the callers pass strings). *)
Definition required (v : string) : bool := bool_decide (v ≠ "").

(** The [ValidationError] that [save()] rejects with, a plain [Error], naming
    the paths that failed in the order of the schema. *)
Definition ValidationError (e p : string) : Exception :=
  Error ("User validation failed: "
         ++ (if required e then "" else "email: Path `email` is required.")
         ++ (if required e || required p then "" else ", ")
         ++ (if required p then "" else "password: Path `password` is required.")).

(** [new this.userModel({email, password, role}).save()]: defaults applied,
    the document validated against the schema before any hook runs, the
    pre-save hook run, the document appended.  A document that fails
    validation is not stored and no hash is computed.  Its one caller has
    just found no document with the email, so the unique index on [email]
    does not fire. *)
Definition model_create_save `{Bcrypt}
    (e p : string) (r : UserRole) : M UserDocument :=
  let! c := get_users in
  let created := {| _id := newObjectId c; email := e; password := p;
                    refreshToken := None; role := r; isActive := true |} in
  if required (email created) && required (password created)
  then
    let! saved := pre_save created in
    let! _ := put_users (c ++ [saved]) in
    ret (hydrate SelectDefault saved)
  else throw (ValidationError e p).

(** [UserSchema.methods.comparePassword] on a stored record. *)
Definition comparePassword `{Bcrypt} (u : User) (candidate : string) : bool :=
  compareSync candidate (password u).

(** The same method on a query result; without the password path
    [bcrypt.compare] rejects its arguments. *)
Definition doc_comparePassword `{Bcrypt}
    (d : UserDocument) (candidate : string) : M bool :=
  match doc_password d with
  | Some h => bcrypt_compare candidate h
  | None => throw (Error "data and hash arguments required")
  end.

(** What the collection holds for an id or an email, as the queries above
    see it. *)
Definition stored_by_id (i : ObjectId) (w : World) : option User :=
  find (has_id i) (users w).

Definition stored_by_email (e : string) (w : World) : option User :=
  find (has_email e) (users w).

(** The refresh-token hash stored for an id, if any. *)
Definition stored_hash (i : ObjectId) (w : World) : option string :=
  stored_by_id i w ≫= refreshToken.

(* ================================================================== *)
(** ** [UserService] ([user.service.ts]) *)

Module UserService.
Section Methods.
Context `{Bcrypt}.

(** [const { password: _password, ...result } = userObject; return {...}]:
    the object literal every password-stripped method returns. *)
Definition withoutPassword (d : UserDocument) : UserWithoutPassword :=
  {| view_id := doc_id d;
     view_email := doc_email d;
     view_role := role_value (doc_role d);
     view_isActive := doc_isActive d;
     view_refreshToken := doc_refreshToken d |}.

Definition createUser (createUserDto : CreateUserDto) : M UserWithoutPassword :=
  let! existingUser := model_findOne (dto_email createUserDto) SelectDefault in
  match existingUser with
  | Some _ => throw (ConflictException "User with this email already exists")
  | None =>
      let! savedUser :=
        model_create_save (dto_email createUserDto) (dto_password createUserDto)
                          (default USER (dto_role createUserDto)) in
      ret (withoutPassword savedUser)
  end.

Definition findByEmail (e : string) : M (option UserDocument) :=
  model_findOne e SelectDefault.

Definition findById (i : ObjectId) : M (option UserWithoutPassword) :=
  let! user := model_findById i MinusPassword in
  match user with
  | None => ret None
  | Some d => ret (Some (withoutPassword d))
  end.

Definition findOne (i : ObjectId) : M (option UserDocument) :=
  model_findById i SelectDefault.

Definition findByEmailWithPassword (e : string) : M (option UserDocument) :=
  model_findOne e PlusPassword.

Definition updateRefreshToken (i : ObjectId) (token : string) : M unit :=
  let! hashedRefreshToken := bcrypt_hash token 10 in
  model_findByIdAndUpdate_refreshToken i (Some hashedRefreshToken).

Definition removeRefreshToken (i : ObjectId) : M unit :=
  model_findByIdAndUpdate_refreshToken i None.

Definition findAll : M (list UserWithoutPassword) :=
  let! found := model_find MinusPassword in
  ret (withoutPassword <$> found).
End Methods.
End UserService.

(* ================================================================== *)
(** ** [AuthService] *)

(** [{ accessToken, refreshToken }] *)
Record Tokens := mkTokens {
  accessToken : string;
  tokens_refreshToken : string
}.

(** [{ id, email, role }] *)
Record PublicUser := mkPublicUser {
  pu_id : ObjectId;
  pu_email : string;
  pu_role : string
}.

(** [{ user: {...}, ...tokens }] *)
Record AuthResult := mkAuthResult {
  auth_user : PublicUser;
  auth_tokens : Tokens
}.

Module AuthService.
Section Methods.
Context `{Bcrypt} `{JwtService}.
(** What [ConfigService.get('auth.jwt. ...')] reads. *)
Variable config : JwtConfig.

Definition generateAccessToken (i : ObjectId) (e r : string) : M string :=
  let payload := {| sub := i; payload_email := e; payload_role := r |} in
  signAsync payload
    {| secret := accessTokenSecret config;
       expiresIn := js_or (Some (accessTokenExpiration config)) "15m" |}.

Definition generateRefreshToken (i : ObjectId) (e r : string) : M string :=
  let payload := {| sub := i; payload_email := e; payload_role := r |} in
  signAsync payload
    {| secret := refreshTokenSecret config;
       expiresIn := js_or (Some (refreshTokenExpiration config)) "7d" |}.

Definition generateTokens (i : ObjectId) (e r : string) : M Tokens :=
  let! a := generateAccessToken i e r in
  let! t := generateRefreshToken i e r in
  ret {| accessToken := a; tokens_refreshToken := t |}.

Definition updateRefreshToken (i : ObjectId) (token : string) : M unit :=
  let! hashedRefreshToken := bcrypt_hash token 10 in
  UserService.updateRefreshToken i hashedRefreshToken.

Definition register (registerDto : Credentials) : M AuthResult :=
  let! existingUser := UserService.findByEmail (cred_email registerDto) in
  match existingUser with
  | Some _ => throw (ConflictException "User with this email already exists")
  | None =>
      let! user :=
        UserService.createUser
          {| dto_email := cred_email registerDto;
             dto_password := cred_password registerDto;
             dto_role := None |} in
      let! tokens := generateTokens (view_id user) (view_email user) (view_role user) in
      let! _ := updateRefreshToken (view_id user) (tokens_refreshToken tokens) in
      ret {| auth_user := {| pu_id := view_id user; pu_email := view_email user;
                             pu_role := view_role user |};
             auth_tokens := tokens |}
  end.

Definition login (loginDto : Credentials) : M AuthResult :=
  let! found := UserService.findByEmailWithPassword (cred_email loginDto) in
  match found with
  | None => throw (UnauthorizedException "Invalid credentials")
  | Some user =>
      let! isValidPassword := doc_comparePassword user (cred_password loginDto) in
      if negb isValidPassword
      then throw (UnauthorizedException "Invalid credentials")
      else
        let! tokens :=
          generateTokens (doc_id user) (doc_email user) (role_value (doc_role user)) in
        let! _ := updateRefreshToken (doc_id user) (tokens_refreshToken tokens) in
        ret {| auth_user := {| pu_id := doc_id user; pu_email := doc_email user;
                               pu_role := role_value (doc_role user) |};
               auth_tokens := tokens |}
  end.

Definition logout (i : ObjectId) : M string :=
  let! _ := UserService.removeRefreshToken i in
  ret "Logged out successfully".

Definition refreshTokens (i : ObjectId) (presented : string) : M Tokens :=
  let! found := UserService.findOne i in
  match found with
  | None => throw (UnauthorizedException "Access denied")
  | Some user =>
      if negb (truthy (doc_refreshToken user))
      then throw (UnauthorizedException "Access denied")
      else
        (* past the guard [user.refreshToken] is a non-empty string *)
        let stored := default "" (doc_refreshToken user) in
        let! refreshTokenMatches := bcrypt_compare presented stored in
        if negb refreshTokenMatches
        then throw (UnauthorizedException "Invalid refresh token")
        else
          let! tokens :=
            generateTokens (doc_id user) (doc_email user)
                           (role_value (doc_role user)) in
          let! _ := updateRefreshToken (doc_id user) (tokens_refreshToken tokens) in
          ret tokens
  end.
End Methods.
End AuthService.

(* ================================================================== *)
(** ** Passport strategies *)

Module LocalStrategy.
Section Methods.
Context `{Bcrypt}.

(** [const { password: _password, ...result } = userObj; return result] *)
Definition omitPassword (d : UserDocument) : UserDocument :=
  {| doc_id := doc_id d; doc_email := doc_email d; doc_password := None;
     doc_refreshToken := doc_refreshToken d; doc_role := doc_role d;
     doc_isActive := doc_isActive d |}.

Definition validate (e p : string) : M UserDocument :=
  let! found := UserService.findByEmailWithPassword e in
  match found with
  | None => throw (UnauthorizedException "Invalid credentials")
  | Some user =>
      let! isValidPassword := doc_comparePassword user p in
      if negb isValidPassword
      then throw (UnauthorizedException "Invalid credentials")
      else ret (omitPassword user)
  end.
End Methods.
End LocalStrategy.

Definition principal (payload : JwtPayload) : AuthenticatedUser :=
  {| userId := sub payload; au_email := payload_email payload;
     au_role := payload_role payload |}.

Module AccessTokenStrategy.
(** Runs once the signature and the expiration of the token were verified. *)
Definition validate (payload : JwtPayload) : M AuthenticatedUser :=
  let! found := UserService.findById (sub payload) in
  match found with
  | None => throw (Error "User not found or inactive")
  | Some user =>
      if negb (view_isActive user)
      then throw (Error "User not found or inactive")
      else ret (principal payload)
  end.
End AccessTokenStrategy.

Module RefreshTokenStrategy.
Definition validate (payload : JwtPayload) : M AuthenticatedUser :=
  let! found := UserService.findOne (sub payload) in
  match found with
  | None => throw (Error "User not found or inactive")
  | Some user =>
      if negb (doc_isActive user)
      then throw (Error "User not found or inactive")
      else if negb (truthy (doc_refreshToken user))
      then throw (Error "Refresh token not found")
      else ret (principal payload)
  end.
End RefreshTokenStrategy.

(* ================================================================== *)
(** ** [HttpExceptionFilter] ([http-exception.filter.ts]) *)

Record Request := mkRequest {
  req_method : string;
  req_url : string
}.

(** The JSON body the filter sends; [error] and [stack] are spread in
    outside production only.  [timestamp] is the clock reading that
    [toISOString()] renders. *)
Record Envelope := mkEnvelope {
  statusCode : N;
  timestamp : N;
  path : string;
  message : string;
  env_error : option string;
  env_stack : option string
}.

Record HttpResponse := mkHttpResponse {
  res_status : N;
  res_json : Envelope
}.

Module HttpExceptionFilter.
(** [@Catch(HttpException)]: the filter is bound to instances of
    [HttpException] only. *)
Definition catches (e : Exception) : option HttpException :=
  match e with
  | Http h => Some h
  | Error _ => None
  end.

(** [catch(exception, host)]; [node_env] is [process.env.NODE_ENV] and
    [date] the value of [new Date()].  The call to the logger is left out. *)
Definition catch (exception : HttpException) (request : Request)
    (node_env : option string) (date : N) : HttpResponse :=
  let status := exn_status exception in
  let message :=
    match exn_response exception with
    | ResponseObject m => js_or m (exn_message exception)
    | ResponseString _ => exn_message exception
    end in
  let verbose := bool_decide (node_env ≠ Some "production") in
  {| res_status := status;
     res_json :=
       {| statusCode := status;
          timestamp := date;
          path := req_url request;
          message := message;
          env_error := if verbose then Some (exn_name exception) else None;
          env_stack := if verbose then Some (exn_stack exception) else None |} |}.

(** The response the filter produces for a thrown value, when it is bound
    to it. *)
Definition respond (e : Exception) (request : Request)
    (node_env : option string) (date : N) : option HttpResponse :=
  (λ h, catch h request node_env date) <$> catches e.
End HttpExceptionFilter.

(* ================================================================== *)
(** ** Cookies ([cookie.util.ts]) *)

Inductive SameSite := Lax | Strict | NoneSite.

Record Cookie := mkCookie {
  cookie_name : string;
  cookie_value : string;
  httpOnly : bool;
  secure : bool;
  maxAge : N;
  sameSite : SameSite;
  cookie_path : string
}.

(** [setAuthCookies(res, accessToken, refreshToken, isSecure)]: the two
    [res.cookie] calls, in order, after what the response already holds. *)
Definition setAuthCookies (res : list Cookie) (a r : string) (isSecure : bool)
    : list Cookie :=
  let accessTokenMaxAge := 15 * 60 * 1000 in
  let refreshTokenMaxAge := 7 * 24 * 60 * 60 * 1000 in
  res ++
  [ {| cookie_name := "access_token"; cookie_value := a; httpOnly := true;
       secure := isSecure; maxAge := accessTokenMaxAge; sameSite := Strict;
       cookie_path := "/" |};
    {| cookie_name := "refresh_token"; cookie_value := r; httpOnly := true;
       secure := isSecure; maxAge := refreshTokenMaxAge; sameSite := Strict;
       cookie_path := "/" |} ].

(** The handlers of [AuthController] await the service and then call
    [setAuthCookies] with the tokens of its result; when the service throws,
    the call is not reached and the response carries no cookie. *)
Definition cookies_of (r : Result AuthResult) (isSecure : bool) : list Cookie :=
  match r with
  | inr a =>
      setAuthCookies [] (accessToken (auth_tokens a))
                     (tokens_refreshToken (auth_tokens a)) isSecure
  | inl _ => []
  end.

(** The token pair a result carries, if any. *)
Definition issued (r : Result AuthResult) : option Tokens :=
  match r with
  | inr a => Some (auth_tokens a)
  | inl _ => None
  end.

(* ================================================================== *)
(** ** A reference instance of the libraries

    A transparent stand-in for the two libraries, used to run the services
    on concrete inputs: the "hash" keeps, behind a marker and its salt, the
    72 bytes of the plaintext that bcrypt reads; the "token" spells out what
    was signed. *)

Module Reference.
(** The two characters that can open an encoded hash: [$], or [%] when the
    data itself opens with [$]. *)
Definition marker : Ascii.ascii := Ascii.ascii_of_nat 36.
Definition other_marker : Ascii.ascii := Ascii.ascii_of_nat 37.

Definition marker_for (d : string) : Ascii.ascii :=
  match d with
  | String c _ => if decide (c = marker) then other_marker else marker
  | EmptyString => marker
  end.

(** Marker, salt, then the 72 bytes that were read. *)
Definition ref_hash (d : string) (r : N) (s : nat) : string :=
  String (marker_for d)
         (String (Ascii.ascii_of_nat (97 + s mod 26)) (bcrypt_input d)).

Definition ref_compare (d h : string) : bool :=
  match h with
  | String c (String _ rest) =>
      bool_decide (c = marker_for d) && bool_decide (rest = bcrypt_input d)
  | _ => false
  end.

#[export] Instance bcrypt : Bcrypt :=
  {| Salt := nat; genSalt := λ n, n; hashSync := ref_hash;
     compareSync := ref_compare |}.

Definition ref_sign (p : JwtPayload) (o : SignOptions) (t : N) : string :=
  "jwt/" ++ secret o ++ "/" ++ expiresIn o ++ "/" ++ pretty (sub p) ++ "/"
         ++ payload_email p ++ "/" ++ payload_role p ++ "/" ++ pretty t.

#[export] Instance jwt : JwtService := {| sign := ref_sign |}.

Definition empty_world : World := {| users := []; drawn := 0; now := 1700000000 |}.

Definition defaults : JwtConfig := authConfig ∅.

(** One stored user, as [register] leaves it. *)
Definition alice : User :=
  {| _id := 1; email := "a@x.com"; password := ref_hash "secret1" 10 0;
     refreshToken := Some "stored-hash"; role := USER; isActive := true |}.

Definition with_alice : World := {| users := [alice]; drawn := 3; now := 1700000000 |}.

Definition inactive_bob : User :=
  {| _id := 2; email := "b@x.com"; password := ref_hash "hunter22" 10 7;
     refreshToken := None; role := USER; isActive := false |}.

Definition with_bob : World :=
  {| users := [alice; inactive_bob]; drawn := 8; now := 1700000500 |}.

(** A deployment that sets both secrets to one value. *)
Definition shared_secret_env : gmap string string :=
  <["ACCESS_TOKEN_SECRET" := "k3y"]> (<["REFRESH_TOKEN_SECRET" := "k3y"]> ∅).

Definition profile_request : Request :=
  {| req_method := "GET"; req_url := "/auth/profile" |}.

Definition bob_payload : JwtPayload :=
  {| sub := 2; payload_email := "b@x.com"; payload_role := "user" |}.

Definition alice_credentials : Credentials :=
  {| cred_email := "a@x.com"; cred_password := "secret1" |}.

(** The world after Alice registered on the empty collection. *)
Definition registered_world : World :=
  (AuthService.register defaults alice_credentials empty_world).2.

Definition alice_payload : JwtPayload :=
  {| sub := 1; payload_email := "a@x.com"; payload_role := "user" |}.

Definition moderator_dto : CreateUserDto :=
  {| dto_email := "m@x.com"; dto_password := "letmein";
     dto_role := Some MODERATOR |}.

Definition unauthorized : HttpException :=
  {| exn_name := "UnauthorizedException"; exn_status := 401;
     exn_message := "Access denied";
     exn_response := ResponseObject (Some "Access denied");
     exn_stack := "UnauthorizedException: Access denied at AuthService" |}.
End Reference.

(* ================================================================== *)
(** ** Vocabulary of the statements *)

(** A view agrees with a stored record on every field but the password,
    which it does not have. *)
Definition strips_only_password (v : UserWithoutPassword) (u : User) : Prop :=
  view_id v = _id u
  ∧ view_email v = email u
  ∧ view_role v = role_value (role u)
  ∧ view_isActive v = isActive u
  ∧ view_refreshToken v = refreshToken u.

(** The subject of a token is missing from the collection, or inactive. *)
Definition rejected_subject (i : ObjectId) (w : World) : Prop :=
  match stored_by_id i w with
  | Some u => isActive u = false
  | None => True
  end.

(** An outcome is a failure that the exception filter renders with status
    401. *)
Definition surfaced_as_unauthorized {A} (out : Result A)
    (request : Request) (node_env : option string) (date : N) : Prop :=
  ∃ e resp, out = inl e
          ∧ HttpExceptionFilter.respond e request node_env date = Some resp
          ∧ statusCode (res_json resp) = 401.

(** Registration on a free email as the specification words it: one record
    with that email is created. *)
Definition registration_as_specified `{Bcrypt} `{JwtService}
    (config : JwtConfig) (dto : Credentials) (w : World) : Prop :=
  (∀ u, u ∈ users w → email u ≠ cred_email dto) →
  ∃ a u',
    (AuthService.register config dto w).1 = inr a
    ∧ users (AuthService.register config dto w).2 = (users w ++ [u'])%list
    ∧ email u' = cred_email dto.


(** An outcome is a failure with an Unauthorized exception. *)
Definition denied_as_unauthorized {A} (out : Result A) : Prop :=
  ∃ e, out = inl e ∧ is_unauthorized e = true.

(** No single signing key serves both kinds of token. *)
Definition distinct_signing_keys (c : JwtConfig) : Prop :=
  accessTokenSecret c ≠ refreshTokenSecret c.

(** Token issuance as the specification words it: each token signed with
    the secret and expiration of its kind over the same payload, and the two
    secrets distinct. *)
Definition issuance_as_specified `{JwtService}
    (env : gmap string string) (i : ObjectId) (e r : string) (w : World) : Prop :=
  let c := authConfig env in
  let payload := {| sub := i; payload_email := e; payload_role := r |} in
  (AuthService.generateTokens c i e r w).1 =
    inr {| accessToken :=
             sign payload {| secret := accessTokenSecret c;
                             expiresIn := accessTokenExpiration c |} (now w);
           tokens_refreshToken :=
             sign payload {| secret := refreshTokenSecret c;
                             expiresIn := refreshTokenExpiration c |} (now w) |}
  ∧ distinct_signing_keys c.

(** What the issuance path computes. *)
Section Outcomes.
Context `{Bcrypt} `{JwtService}.
Variable config : JwtConfig.

(** The pair [generateTokens] returns for a user at clock reading [t]. *)
Definition tokens_for (i : ObjectId) (e r : string) (t : N) : Tokens :=
  {| accessToken :=
       sign {| sub := i; payload_email := e; payload_role := r |}
            {| secret := accessTokenSecret config;
               expiresIn := js_or (Some (accessTokenExpiration config)) "15m" |} t;
     tokens_refreshToken :=
       sign {| sub := i; payload_email := e; payload_role := r |}
            {| secret := refreshTokenSecret config;
               expiresIn := js_or (Some (refreshTokenExpiration config)) "7d" |} t |}.

(** What [AuthService.updateRefreshToken] leaves stored for a token: the
    hash, under the salt drawn second, of the hash under the salt drawn
    first. *)
Definition stored_for (token : string) (n : nat) : string :=
  hashSync (hashSync token 10 (genSalt n)) 10 (genSalt (S n)).

(** The result of [register] for a free email and the record it appends. *)
Definition registration (dto : Credentials) (w : World) : AuthResult :=
  let i := newObjectId (users w) in
  {| auth_user := {| pu_id := i; pu_email := cred_email dto;
                     pu_role := role_value USER |};
     auth_tokens := tokens_for i (cred_email dto) (role_value USER) (now w) |}.

Definition registered (dto : Credentials) (w : World) : User :=
  {| _id := newObjectId (users w);
     email := cred_email dto;
     password := hashSync (cred_password dto) 10 (genSalt (drawn w));
     refreshToken :=
       Some (stored_for (tokens_refreshToken (auth_tokens (registration dto w)))
                        (S (drawn w)));
     role := USER; isActive := true |}.

(** The world after a token pair was issued to the record [u]. *)
Definition issued_world (u : User) (w : World) : World :=
  let tokens := tokens_for (_id u) (email u) (role_value (role u)) (now w) in
  {| users := update_by_id (_id u)
                (set_refreshToken
                   (Some (stored_for (tokens_refreshToken tokens) (drawn w))))
                (users w);
     drawn := S (S (drawn w)); now := now w |}.
End Outcomes.

(** ** The rest of [cookie.util.ts] *)

(** The default of the [isSecure] parameter and the [secure] option of the
    clearing calls: [process.env.NODE_ENV === 'production']. *)
Definition isProduction (node_env : option string) : bool :=
  bool_decide (node_env = Some "production").

(** One [res.clearCookie(name, options)] call. *)
Record ClearedCookie := mkClearedCookie {
  cleared_name : string;
  cleared_httpOnly : bool;
  cleared_secure : bool;
  cleared_sameSite : SameSite;
  cleared_path : string
}.

(** [clearAuthCookies(res)]: the two [res.clearCookie] calls, in order. *)
Definition clearAuthCookies (res : list ClearedCookie) (node_env : option string)
    : list ClearedCookie :=
  res ++
  [ {| cleared_name := "access_token"; cleared_httpOnly := true;
       cleared_secure := isProduction node_env; cleared_sameSite := Strict;
       cleared_path := "/" |};
    {| cleared_name := "refresh_token"; cleared_httpOnly := true;
       cleared_secure := isProduction node_env; cleared_sameSite := Strict;
       cleared_path := "/" |} ].

(** What identifies a cookie to the browser together with the attributes a
    clearing call has to repeat. *)
Definition cookie_key (c : Cookie) : ClearedCookie :=
  {| cleared_name := cookie_name c; cleared_httpOnly := httpOnly c;
     cleared_secure := secure c; cleared_sameSite := sameSite c;
     cleared_path := cookie_path c |}.

(** ** Worlds the service can be in *)

(** A record with its refresh-token hash blanked: everything about a user
    that issuing and revoking tokens has no business changing. *)
Definition core (u : User) : User := set_refreshToken None u.

Section Reachable.
Context `{Bcrypt} `{JwtService}.
Variable config : JwtConfig.

(** The worlds that the methods of [AuthService] produce from an empty
    collection, with the clock running in between. *)
Inductive reachable : World → Prop :=
| reach_empty n t : reachable {| users := []; drawn := n; now := t |}
| reach_clock w t :
    reachable w → reachable {| users := users w; drawn := drawn w; now := t |}
| reach_register w dto :
    reachable w → reachable (AuthService.register config dto w).2
| reach_login w dto :
    reachable w → reachable (AuthService.login config dto w).2
| reach_logout w i :
    reachable w → reachable (AuthService.logout i w).2
| reach_refresh w i presented :
    reachable w → reachable (AuthService.refreshTokens config i presented w).2.

(** The same worlds together with what was handed to the callers on the way:
    the credentials of the registrations that succeeded, and for each user
    id the refresh token most recently returned to it by [register], [login]
    or [refreshTokens] and not since revoked by [logout]. *)
Definition note_registration (out : Result AuthResult) (dto : Credentials)
    (registrations : list Credentials) : list Credentials :=
  match out with
  | inr _ => dto :: registrations
  | inl _ => registrations
  end.

Definition note_issue (out : Result AuthResult) (held : gmap ObjectId string)
    : gmap ObjectId string :=
  match out with
  | inr a => <[pu_id (auth_user a) := tokens_refreshToken (auth_tokens a)]> held
  | inl _ => held
  end.

Definition note_refresh (out : Result Tokens) (i : ObjectId)
    (held : gmap ObjectId string) : gmap ObjectId string :=
  match out with
  | inr tokens => <[i := tokens_refreshToken tokens]> held
  | inl _ => held
  end.

Inductive history : World → list Credentials → gmap ObjectId string → Prop :=
| hist_empty n t : history {| users := []; drawn := n; now := t |} [] ∅
| hist_clock w regs held t :
    history w regs held →
    history {| users := users w; drawn := drawn w; now := t |} regs held
| hist_register w regs held dto :
    history w regs held →
    history (AuthService.register config dto w).2
            (note_registration (AuthService.register config dto w).1 dto regs)
            (note_issue (AuthService.register config dto w).1 held)
| hist_login w regs held dto :
    history w regs held →
    history (AuthService.login config dto w).2 regs
            (note_issue (AuthService.login config dto w).1 held)
| hist_logout w regs held i :
    history w regs held →
    history (AuthService.logout i w).2 regs (delete i held)
| hist_refresh w regs held i presented :
    history w regs held →
    history (AuthService.refreshTokens config i presented w).2 regs
            (note_refresh (AuthService.refreshTokens config i presented w).1 i held).

(** Emails identify records, and none is empty. *)
Definition emails_well (c : list User) : Prop :=
  NoDup (email <$> c) ∧ Forall (λ u, email u ≠ "") c.

(** What the history keeps track of, against what is stored. *)
Definition registrations_kept (regs : list Credentials) (w : World) : Prop :=
  ∀ dto, dto ∈ regs →
  ∃ u n, stored_by_email (cred_email dto) w = Some u
       ∧ password u = hashSync (cred_password dto) 10 (genSalt n).

Definition held_is_stored (held : gmap ObjectId string) (w : World) : Prop :=
  ∀ i, match held !! i with
       | Some t => ∃ u n, stored_by_id i w = Some u
                        ∧ refreshToken u = Some (stored_for t n)
       | None => stored_hash i w = None
       end.
End Reachable.

(** ** A scenario on the reference instance *)

Module Scenario.
Import Reference.

(** Exactly 72 bytes, and two passwords that continue them differently. *)
Definition seventy_two : string :=
  "abcdefghijklmnopqrstuvwxyzabcdefghijklmnopqrstuvwxyzabcdefghijklmnopqrst".

Definition long_password : string := seventy_two ++ "-one".
Definition other_long_password : string := seventy_two ++ "-two".

Definition long_credentials : Credentials :=
  {| cred_email := "l@x.com"; cred_password := long_password |}.

Definition carol_credentials : Credentials :=
  {| cred_email := "c@x.com"; cred_password := "opensesame" |}.

Definition no_password : Credentials :=
  {| cred_email := "c@x.com"; cred_password := "" |}.

(** Alice registers, Carol registers, Alice logs out and logs in again. *)
Definition alice_in : Result AuthResult * World :=
  AuthService.register defaults alice_credentials empty_world.

Definition carol_in : Result AuthResult * World :=
  AuthService.register defaults carol_credentials alice_in.2.

Definition alice_out : Result string * World :=
  AuthService.logout 1 carol_in.2.

Definition alice_back : Result AuthResult * World :=
  AuthService.login defaults alice_credentials alice_out.2.

Definition busy_world : World := alice_back.2.

Definition busy_registrations : list Credentials :=
  note_registration carol_in.1 carol_credentials
    (note_registration alice_in.1 alice_credentials []).

Definition busy_held : gmap ObjectId string :=
  note_issue alice_back.1
    (delete 1 (note_issue carol_in.1 (note_issue alice_in.1 ∅))).

(** The world in which Alice has logged out. *)
Definition alice_logged_out : World := (AuthService.logout 1 with_alice).2.

Definition refresh_request : Request :=
  {| req_method := "POST"; req_url := "/auth/refresh" |}.
End Scenario.

(* ================================================================== *)
(** * Properties *)

(** ** The monad and the queries, run on a world *)

Lemma bind_ok {A B} (m : M A) (k : A → M B) w a w' :
  m w = (inr a, w') → bind m k w = k a w'.
Proof. intros E. unfold bind. by rewrite E. Qed.

Lemma bind_throw {A B} (m : M A) (k : A → M B) w e w' :
  m w = (inl e, w') → bind m k w = (inl e, w').
Proof. intros E. unfold bind. by rewrite E. Qed.

Lemma model_findOne_run e s w :
  model_findOne e s w = (inr (hydrate s <$> stored_by_email e w), w).
Proof. reflexivity. Qed.

Lemma model_findById_run i s w :
  model_findById i s w = (inr (hydrate s <$> stored_by_id i w), w).
Proof. reflexivity. Qed.

Lemma model_update_run i v w :
  model_findByIdAndUpdate_refreshToken i v w =
  (inr tt, {| users := update_by_id i (set_refreshToken v) (users w);
              drawn := drawn w; now := now w |}).
Proof. reflexivity. Qed.

Lemma world_eta w : {| users := users w; drawn := drawn w; now := now w |} = w.
Proof. by destruct w. Qed.

(** ** The collection *)

Lemma has_email_true e u : has_email e u = true ↔ email u = e.
Proof. unfold has_email. by rewrite bool_decide_eq_true. Qed.

Lemma has_id_true i u : has_id i u = true ↔ _id u = i.
Proof. unfold has_id. apply N.eqb_eq. Qed.

Lemma find_email_None e (c : list User) :
  (∀ u, u ∈ c → email u ≠ e) → find (has_email e) c = None.
Proof.
  induction c as [|u c IH]; intros Hno; [done|]. simpl.
  destruct (has_email e u) eqn:E.
  - apply has_email_true in E. exfalso. apply (Hno u); [left | done].
  - apply IH. intros u' Hin. apply Hno. by right.
Qed.

Lemma find_email_Some e (c : list User) u :
  u ∈ c → email u = e →
  ∃ u', find (has_email e) c = Some u' ∧ u' ∈ c ∧ email u' = e.
Proof.
  induction c as [|x c IH]; intros Hin He; [by apply elem_of_nil in Hin|].
  simpl. destruct (has_email e x) eqn:E.
  - exists x. split; [done|]. split; [left | by apply has_email_true].
  - apply elem_of_cons in Hin as [->|Hin].
    + apply has_email_true in He. congruence.
    + destruct (IH Hin He) as (u' & Hf & Hin' & He'). exists u'.
      split; [done|]. split; [by right | done].
Qed.

Lemma find_elem_of {A} (p : A → bool) (c : list A) x :
  find p c = Some x → x ∈ c ∧ p x = true.
Proof.
  induction c as [|y c IH]; [done|]. simpl. destruct (p y) eqn:E.
  - intros [= ->]. split; [left | done].
  - intros Hf. destruct (IH Hf). split; [by right | done].
Qed.

Lemma find_update_by_id i f (c : list User) :
  (∀ u, _id (f u) = _id u) →
  find (has_id i) (update_by_id i f c) = f <$> find (has_id i) c.
Proof.
  intros Hid. induction c as [|u c IH]; [done|]. simpl.
  destruct (has_id i u) eqn:E; simpl.
  - assert (has_id i (f u) = true) as ->; [|done].
    apply has_id_true. rewrite Hid. by apply has_id_true.
  - by rewrite E.
Qed.

Lemma update_by_id_idemp i v (c : list User) :
  update_by_id i (set_refreshToken v) (update_by_id i (set_refreshToken v) c) =
  update_by_id i (set_refreshToken v) c.
Proof.
  induction c as [|u c IH]; [done|]. simpl.
  destruct (has_id i u) eqn:E; simpl.
  - assert (has_id i (set_refreshToken v u) = true) as -> by done. done.
  - rewrite E. by rewrite IH.
Qed.

Lemma stored_hash_after_update i v w n t :
  stored_hash i {| users := update_by_id i (set_refreshToken v) (users w);
                   drawn := n; now := t |} =
  stored_by_id i w ≫= λ _, v.
Proof.
  unfold stored_hash, stored_by_id. simpl.
  rewrite find_update_by_id; [|done]. by destruct (find _ _).
Qed.

(** ** Services, run on a world *)

Lemma findOne_run i w :
  UserService.findOne i w = (inr (hydrate SelectDefault <$> stored_by_id i w), w).
Proof. reflexivity. Qed.

Lemma removeRefreshToken_run i w :
  UserService.removeRefreshToken i w =
  (inr tt, {| users := update_by_id i (set_refreshToken None) (users w);
              drawn := drawn w; now := now w |}).
Proof. reflexivity. Qed.

Lemma logout_run i w :
  AuthService.logout i w =
  (inr "Logged out successfully",
   {| users := update_by_id i (set_refreshToken None) (users w);
      drawn := drawn w; now := now w |}).
Proof. reflexivity. Qed.

Section Refresh.
Context `{Bcrypt} `{JwtService}.
Variable config : JwtConfig.

(** The two guards of [refreshTokens] that do not look at the presented
    token. *)
Lemma refreshTokens_no_hash i presented w :
  stored_hash i w = None →
  AuthService.refreshTokens config i presented w =
  (inl (UnauthorizedException "Access denied"), w).
Proof.
  intros Hno. unfold AuthService.refreshTokens.
  rewrite (bind_ok _ _ _ _ _ (findOne_run i w)).
  unfold stored_hash in Hno.
  destruct (stored_by_id i w) as [u|]; simpl in *; [|done].
  by rewrite Hno.
Qed.

Lemma refreshTokens_no_hash_like i presented w :
  stored_by_id i w ≫= refreshToken = Some "" →
  AuthService.refreshTokens config i presented w =
  (inl (UnauthorizedException "Access denied"), w).
Proof.
  intros Hs. unfold AuthService.refreshTokens.
  rewrite (bind_ok _ _ _ _ _ (findOne_run i w)).
  destruct (stored_by_id i w) as [u|]; simpl in *; [|done].
  by rewrite Hs.
Qed.

Lemma refreshTokens_mismatch i presented w stored :
  stored_hash i w = Some stored → stored ≠ "" →
  compareSync presented stored = false →
  AuthService.refreshTokens config i presented w =
  (inl (UnauthorizedException "Invalid refresh token"), w).
Proof.
  intros Hs Hne Hcmp. unfold AuthService.refreshTokens.
  rewrite (bind_ok _ _ _ _ _ (findOne_run i w)).
  unfold stored_hash in Hs.
  destruct (stored_by_id i w) as [u|]; simpl in *; [|done].
  rewrite Hs. simpl. rewrite bool_decide_eq_true_2; [|done]. simpl.
  unfold bind, bcrypt_compare, ret. by rewrite Hcmp.
Qed.

(** Past both guards [refreshTokens] issues a pair for the stored user and
    overwrites the stored hash through [updateRefreshToken]. *)
Lemma refreshTokens_match i presented w u stored :
  stored_by_id i w = Some u → refreshToken u = Some stored → stored ≠ "" →
  compareSync presented stored = true →
  let tokens := tokens_for config (_id u) (email u) (role_value (role u)) (now w) in
  AuthService.refreshTokens config i presented w =
  (inr tokens,
   {| users := update_by_id (_id u)
                 (set_refreshToken
                    (Some (stored_for (tokens_refreshToken tokens) (drawn w))))
                 (users w);
      drawn := S (S (drawn w)); now := now w |}).
Proof.
  intros Hu Hs Hne Hcmp. unfold AuthService.refreshTokens.
  rewrite (bind_ok _ _ _ _ _ (findOne_run i w)). rewrite Hu. simpl.
  rewrite Hs. simpl. rewrite bool_decide_eq_true_2; [|done]. simpl.
  unfold bind at 1. unfold bcrypt_compare, ret. rewrite Hcmp. reflexivity.
Qed.

(** [refreshTokens] fails exactly in three cases, each time with
    Unauthorized: no user or no stored hash, or a stored hash the presented
    token does not match. *)
Lemma refreshTokens_fails_iff i presented w :
  (∃ e, (AuthService.refreshTokens config i presented w).1 = inl e) ↔
  (truthy (stored_hash i w) = false
   ∨ ∃ stored, stored_hash i w = Some stored
             ∧ compareSync presented stored = false).
Proof.
  unfold stored_hash. destruct (stored_by_id i w) as [u|] eqn:Hu; simpl.
  - destruct (refreshToken u) as [stored|] eqn:Hs; simpl.
    + destruct (decide (stored = "")) as [->|Hne].
      * rewrite refreshTokens_no_hash_like; [|by rewrite Hu; simpl].
        split; [|by eexists]. intros _. left.
        apply bool_decide_eq_false_2. by intros ?.
      * destruct (compareSync presented stored) eqn:Hcmp.
        -- rewrite (refreshTokens_match i presented w u stored); try done.
           simpl. split; [by intros [e ?]|].
           rewrite bool_decide_eq_true_2; [|done].
           intros [Hf | (s' & [= <-] & Hc)]; congruence.
        -- rewrite (refreshTokens_mismatch i presented w stored); try done;
             [|unfold stored_hash; by rewrite Hu; simpl].
           split; [intros _; right; by eexists | by eexists].
    + rewrite refreshTokens_no_hash; [|unfold stored_hash; by rewrite Hu; simpl].
      split; [intros _; by left | by eexists].
  - rewrite refreshTokens_no_hash; [|unfold stored_hash; by rewrite Hu].
    split; [intros _; by left | by eexists].
Qed.
End Refresh.

(** The guard in front of the refresh endpoint turns the same states away,
    with a plain [Error]. *)
Lemma refresh_validate_rejects payload w :
  stored_hash (sub payload) w = None →
  ∃ msg, RefreshTokenStrategy.validate payload w = (inl (Error msg), w).
Proof.
  intros Hno. unfold RefreshTokenStrategy.validate.
  rewrite (bind_ok _ _ _ _ _ (findOne_run _ w)).
  unfold stored_hash in Hno.
  destruct (stored_by_id (sub payload) w) as [u|]; simpl in *; [|by eexists].
  rewrite Hno. destruct (isActive u); simpl; by eexists.
Qed.

(** The two messages it rejects them with. *)
Lemma refresh_validate_message payload w :
  stored_hash (sub payload) w = None →
  ∃ msg, (msg = "User not found or inactive" ∨ msg = "Refresh token not found")
       ∧ RefreshTokenStrategy.validate payload w = (inl (Error msg), w).
Proof.
  intros Hno. unfold RefreshTokenStrategy.validate.
  rewrite (bind_ok _ _ _ _ _ (findOne_run _ w)).
  unfold stored_hash in Hno.
  destruct (stored_by_id (sub payload) w) as [u|]; simpl in *;
    [|eexists; split; [by left | done]].
  rewrite Hno. destruct (isActive u); simpl;
    eexists; (split; [|done]); [by right | by left].
Qed.

(** ** Logout *)

Lemma find_update_other i j f (c : list User) :
  j ≠ i → (∀ u, _id (f u) = _id u) →
  find (has_id j) (update_by_id i f c) = find (has_id j) c.
Proof.
  intros Hne Hid. induction c as [|x c IH]; [done|]. simpl.
  destruct (has_id i x) eqn:Ei; simpl.
  - apply has_id_true in Ei.
    assert (has_id j (f x) = false) as ->.
    { apply N.eqb_neq. rewrite Hid. congruence. }
    assert (has_id j x = false) as ->; [|done].
    apply N.eqb_neq. congruence.
  - by rewrite IH.
Qed.

(** Updating by id changes the first record with that id, in the one field,
    and nothing else. *)
Lemma update_by_id_pointwise i v (c : list User) :
  Forall2 (λ x y, y = x ∨ (_id x = i ∧ y = set_refreshToken v x))
          c (update_by_id i (set_refreshToken v) c).
Proof.
  induction c as [|x c IH]; [constructor|]. simpl.
  destruct (has_id i x) eqn:E.
  - constructor; [right; split; [by apply has_id_true | done]|].
    clear. induction c; constructor; auto.
  - constructor; [by left | done].
Qed.

Lemma stored_by_id_update i j v w n t :
  stored_by_id j {| users := update_by_id i (set_refreshToken v) (users w);
                    drawn := n; now := t |} =
  (λ x, if decide (j = i) then set_refreshToken v x else x) <$> stored_by_id j w.
Proof.
  unfold stored_by_id. simpl. destruct (decide (j = i)) as [->|Hne].
  - by rewrite find_update_by_id.
  - rewrite find_update_other; [|done|done]. by destruct (find _ _).
Qed.

Lemma stored_hash_after_logout i w :
  stored_hash i (AuthService.logout i w).2 = None.
Proof.
  rewrite logout_run. simpl. rewrite stored_hash_after_update.
  by destruct (stored_by_id i w).
Qed.

(** C8.  [logout] always succeeds.  The record stored under the id stays,
    with its refresh-token value cleared and nothing else changed; the
    record under every other id is exactly as it was; record by record the
    collection is unchanged but for that one field of records with that id.
    Applying it a second time changes nothing: the world after two logouts
    is the world after one, and the second call succeeds too. *)
Theorem logout_clears_idempotent (i : ObjectId) (w : World) :
  let w1 := (AuthService.logout i w).2 in
  (AuthService.logout i w).1 = inr "Logged out successfully"
  ∧ (∀ j, stored_by_id j w1 =
          (λ x, if decide (j = i) then set_refreshToken None x else x)
            <$> stored_by_id j w)
  ∧ Forall2 (λ x y, y = x ∨ (_id x = i ∧ y = set_refreshToken None x))
            (users w) (users w1)
  ∧ (drawn w1 = drawn w ∧ now w1 = now w)
  ∧ stored_hash i w1 = None
  ∧ AuthService.logout i w1 = (inr "Logged out successfully", w1).
Proof.
  simpl. rewrite !logout_run. simpl. split; [done|]. split; [|split; [|split; [|split]]].
  - intros j. apply stored_by_id_update.
  - apply update_by_id_pointwise.
  - done.
  - apply (stored_hash_after_logout i w).
  - by rewrite update_by_id_idemp.
Qed.

(** Logout touches nothing but the refresh-token hash of that one id. *)
Lemma logout_other_fields i w u :
  stored_by_id i w = Some u →
  stored_by_id i (AuthService.logout i w).2 = Some (set_refreshToken None u).
Proof.
  intros Hu. rewrite logout_run. unfold stored_by_id in *. simpl.
  rewrite find_update_by_id; [|done]. by rewrite Hu.
Qed.

(** ** Refresh without a stored hash *)

Section RefreshDenied.
Context `{Bcrypt} `{JwtService}.
Variable config : JwtConfig.

(** C7 (as the code behaves).  Whenever no refresh-token hash is stored for
    the user, [refreshTokens] fails with Unauthorized and changes nothing,
    whatever token is presented; in particular this is so right after
    [logout].  The refresh-token check that runs before it turns the same
    users away as well, but with a plain [Error] ("User not found or
    inactive" or "Refresh token not found"): that is not an Unauthorized
    exception, and the exception filter does not render it. *)
Theorem refresh_denied_without_hash
    (i : ObjectId) (presented : string) (payload : JwtPayload) (w : World) :
  (stored_hash i w = None →
     AuthService.refreshTokens config i presented w =
       (inl (UnauthorizedException "Access denied"), w))
  ∧ (let w1 := (AuthService.logout i w).2 in
     AuthService.refreshTokens config i presented w1 =
       (inl (UnauthorizedException "Access denied"), w1))
  ∧ (stored_hash (sub payload) w = None →
     ∃ msg,
       (msg = "User not found or inactive" ∨ msg = "Refresh token not found")
       ∧ RefreshTokenStrategy.validate payload w = (inl (Error msg), w)
       ∧ ¬ denied_as_unauthorized (RefreshTokenStrategy.validate payload w).1
       ∧ (∀ request node_env date,
            HttpExceptionFilter.respond (Error msg) request node_env date = None)).
Proof.
  split; [apply refreshTokens_no_hash|]. split.
  - simpl. apply refreshTokens_no_hash. apply stored_hash_after_logout.
  - intros Hno.
    destruct (refresh_validate_message payload w Hno) as (msg & Hmsg & Hv).
    exists msg. split; [done|]. split; [done|]. split; [|done].
    rewrite Hv. simpl. by intros (e & [= <-] & He).
Qed.
End RefreshDenied.

(** ** Login with bad credentials *)

Section LoginRejected.
Context `{Bcrypt} `{JwtService}.
Variable config : JwtConfig.

Lemma login_unknown_email dto w :
  stored_by_email (cred_email dto) w = None →
  AuthService.login config dto w =
  (inl (UnauthorizedException "Invalid credentials"), w).
Proof.
  intros Hno. unfold AuthService.login, UserService.findByEmailWithPassword.
  rewrite (bind_ok _ _ _ _ _ (model_findOne_run _ _ w)). by rewrite Hno.
Qed.

Lemma login_wrong_password dto w u :
  stored_by_email (cred_email dto) w = Some u →
  comparePassword u (cred_password dto) = false →
  AuthService.login config dto w =
  (inl (UnauthorizedException "Invalid credentials"), w).
Proof.
  intros Hu Hcmp. unfold AuthService.login, UserService.findByEmailWithPassword.
  rewrite (bind_ok _ _ _ _ _ (model_findOne_run _ _ w)). rewrite Hu. simpl.
  unfold bind, doc_comparePassword, bcrypt_compare, ret. simpl.
  unfold comparePassword in Hcmp. by rewrite Hcmp.
Qed.

(** The guard in front of the login endpoint takes the same two exits. *)
Lemma local_validate_rejects e p w :
  match stored_by_email e w with
  | None => True
  | Some u => comparePassword u p = false
  end →
  LocalStrategy.validate e p w =
  (inl (UnauthorizedException "Invalid credentials"), w).
Proof.
  intros Hbad. unfold LocalStrategy.validate, UserService.findByEmailWithPassword.
  rewrite (bind_ok _ _ _ _ _ (model_findOne_run _ _ w)).
  destruct (stored_by_email e w) as [u|]; simpl; [|done].
  unfold bind, doc_comparePassword, bcrypt_compare, ret. simpl.
  unfold comparePassword in Hbad. by rewrite Hbad.
Qed.

(** C6.  When no record has the email, and when the record with that email
    does not match the password, [login] fails with Unauthorized, the
    result carries no token pair, no cookie is set, and the world (so the
    stored refresh-token hash of every user) is unchanged. *)
Theorem login_rejected_no_effect (dto : Credentials) (w : World) (isSecure : bool) :
  ((∀ u, u ∈ users w → email u ≠ cred_email dto)
   ∨ (∃ u, stored_by_email (cred_email dto) w = Some u
           ∧ comparePassword u (cred_password dto) = false)) →
  let out := AuthService.login config dto w in
  out = (inl (UnauthorizedException "Invalid credentials"), w)
  ∧ is_unauthorized (UnauthorizedException "Invalid credentials") = true
  ∧ issued out.1 = None
  ∧ cookies_of out.1 isSecure = []
  ∧ (∀ i, stored_hash i out.2 = stored_hash i w).
Proof.
  intros Hbad. simpl.
  assert (AuthService.login config dto w =
          (inl (UnauthorizedException "Invalid credentials"), w)) as ->.
  { destruct Hbad as [Hno | (u & Hu & Hcmp)].
    - apply login_unknown_email. by apply find_email_None.
    - by apply (login_wrong_password dto w u). }
  done.
Qed.
End LoginRejected.

(** ** Registration *)

Lemma newObjectId_bound (c : list User) u :
  u ∈ c → _id u < newObjectId c.
Proof.
  unfold newObjectId. induction c as [|x c IH]; intros Hin.
  - by apply elem_of_nil in Hin.
  - rewrite fmap_cons. cbn [foldr].
    pose proof (N.le_max_l (_id x) (foldr N.max 0 (_id <$> c))).
    pose proof (N.le_max_r (_id x) (foldr N.max 0 (_id <$> c))).
    apply elem_of_cons in Hin as [->|Hin]; [lia|].
    specialize (IH Hin). lia.
Qed.

Lemma newObjectId_fresh (c : list User) u :
  u ∈ c → has_id (newObjectId c) u = false.
Proof.
  intros Hin. apply newObjectId_bound in Hin. unfold has_id.
  apply N.eqb_neq. lia.
Qed.

Lemma update_by_id_app_fresh i f (c : list User) x :
  (∀ u, u ∈ c → has_id i u = false) →
  update_by_id i f (c ++ [x]) = (c ++ update_by_id i f [x])%list.
Proof.
  induction c as [|u c IH]; intros Hf; [done|]. simpl.
  rewrite (Hf u); [|left]. rewrite IH; [done|].
  intros u' Hin. apply Hf. by right.
Qed.

Lemma filter_email_none e (c : list User) :
  (∀ u, u ∈ c → email u ≠ e) → filter (λ u, email u = e) c = [].
Proof.
  induction c as [|u c IH]; intros Hno; [done|].
  rewrite filter_cons_False; [|apply Hno; left].
  apply IH. intros u' Hin. apply Hno. by right.
Qed.

Section Register.
Context `{Bcrypt} `{JwtService}.
Variable config : JwtConfig.

Lemma register_conflict dto w u :
  stored_by_email (cred_email dto) w = Some u →
  AuthService.register config dto w =
  (inl (ConflictException "User with this email already exists"), w).
Proof.
  intros Hu. unfold AuthService.register, UserService.findByEmail.
  rewrite (bind_ok _ _ _ _ _ (model_findOne_run _ _ w)). by rewrite Hu.
Qed.

Lemma generateTokens_run i e r w :
  AuthService.generateTokens config i e r w = (inr (tokens_for config i e r (now w)), w).
Proof. reflexivity. Qed.

Lemma updateRefreshToken_run i token w :
  AuthService.updateRefreshToken i token w =
  (inr tt,
   {| users := update_by_id i (set_refreshToken (Some (stored_for token (drawn w))))
                            (users w);
      drawn := S (S (drawn w)); now := now w |}).
Proof. reflexivity. Qed.

Lemma required_true v : required v = true ↔ v ≠ "".
Proof. unfold required. by rewrite bool_decide_eq_true. Qed.

Lemma required_false v : required v = false ↔ v = "".
Proof.
  unfold required. rewrite bool_decide_eq_false. split.
  - intros Hn. destruct (decide (v = "")) as [|Hne]; [done|]. by destruct Hn.
  - intros -> Hn. by apply Hn.
Qed.

Lemma register_fresh dto w :
  stored_by_email (cred_email dto) w = None →
  cred_email dto ≠ "" → cred_password dto ≠ "" →
  AuthService.register config dto w =
  (inr (registration config dto w),
   {| users := users w ++ [registered config dto w];
      drawn := S (S (S (drawn w))); now := now w |}).
Proof.
  intros Hno He%required_true Hp%required_true.
  unfold AuthService.register, UserService.findByEmail.
  rewrite (bind_ok _ _ _ _ _ (model_findOne_run _ _ w)). rewrite Hno. simpl.
  unfold bind at 1. unfold UserService.createUser.
  rewrite (bind_ok _ _ _ _ _ (model_findOne_run _ _ w)).
  cbn [dto_email]. rewrite Hno. simpl.
  unfold bind at 1. unfold bind at 1. unfold model_create_save.
  unfold bind at 1. unfold get_users at 1. cbn [email password dto_email dto_password].
  rewrite He, Hp. cbn [andb].
  unfold bind, pre_save, bcrypt_hash, get_users, put_users,
    ret, AuthService.generateTokens, AuthService.generateAccessToken,
    AuthService.generateRefreshToken, signAsync, AuthService.updateRefreshToken,
    UserService.updateRefreshToken, model_findByIdAndUpdate_refreshToken,
    bcrypt_hash, get_users, put_users, bind, ret. simpl.
  rewrite update_by_id_app_fresh; [|apply newObjectId_fresh]. simpl.
  unfold has_id. simpl. rewrite N.eqb_refl. reflexivity.
Qed.

Lemma register_invalid dto w :
  stored_by_email (cred_email dto) w = None →
  cred_email dto = "" ∨ cred_password dto = "" →
  AuthService.register config dto w =
  (inl (ValidationError (cred_email dto) (cred_password dto)), w).
Proof.
  intros Hno Hbad.
  assert (required (cred_email dto) && required (cred_password dto) = false) as Hv.
  { apply andb_false_iff. destruct Hbad as [Hb|Hb]; [left|right];
      by apply required_false. }
  unfold AuthService.register, UserService.findByEmail.
  rewrite (bind_ok _ _ _ _ _ (model_findOne_run _ _ w)). rewrite Hno. simpl.
  unfold bind at 1. unfold UserService.createUser.
  rewrite (bind_ok _ _ _ _ _ (model_findOne_run _ _ w)).
  cbn [dto_email]. rewrite Hno. simpl.
  unfold bind at 1. unfold model_create_save.
  unfold bind at 1. unfold get_users at 1. cbn [email password dto_email dto_password].
  by rewrite Hv.
Qed.

Lemma register_inv dto w a w' :
  AuthService.register config dto w = (inr a, w') →
  stored_by_email (cred_email dto) w = None
  ∧ cred_email dto ≠ "" ∧ cred_password dto ≠ ""
  ∧ a = registration config dto w
  ∧ w' = {| users := users w ++ [registered config dto w];
            drawn := S (S (S (drawn w))); now := now w |}.
Proof.
  intros Hreg. destruct (stored_by_email (cred_email dto) w) as [u|] eqn:E.
  - rewrite (register_conflict dto w u E) in Hreg. discriminate.
  - destruct (decide (cred_email dto = "")) as [He|He].
    { rewrite (register_invalid dto w E) in Hreg; [discriminate | by left]. }
    destruct (decide (cred_password dto = "")) as [Hp|Hp].
    { rewrite (register_invalid dto w E) in Hreg; [discriminate | by right]. }
    rewrite (register_fresh dto w E He Hp) in Hreg. by injection Hreg as <- <-.
Qed.

(** C4 (as the code behaves).  With a record of that email present,
    [register] fails with Conflict and the world is unchanged (no record
    added, none altered).  With no such record and an email and a password
    that are not empty, [register] succeeds and the collection grows by
    exactly one record, which has that email and is the only one with it.
    With no such record and an empty email or password, the schema refuses
    the document: [register] fails with the validation error and the world
    is unchanged. *)
Theorem register_conflict_or_one_record (dto : Credentials) (w : World) :
  ((∃ u, u ∈ users w ∧ email u = cred_email dto) →
     AuthService.register config dto w =
       (inl (ConflictException "User with this email already exists"), w))
  ∧ ((∀ u, u ∈ users w → email u ≠ cred_email dto) →
     cred_email dto ≠ "" → cred_password dto ≠ "" →
     ∃ a u',
       (AuthService.register config dto w).1 = inr a
       ∧ users (AuthService.register config dto w).2 = (users w ++ [u'])%list
       ∧ email u' = cred_email dto
       ∧ length (filter (λ u, email u = cred_email dto)
                        (users (AuthService.register config dto w).2)) = 1%nat)
  ∧ ((∀ u, u ∈ users w → email u ≠ cred_email dto) →
     cred_email dto = "" ∨ cred_password dto = "" →
     AuthService.register config dto w =
       (inl (ValidationError (cred_email dto) (cred_password dto)), w)).
Proof.
  split; [|split].
  - intros (u & Hin & He).
    destruct (find_email_Some _ _ _ Hin He) as (u' & Hf & _).
    by apply (register_conflict dto w u').
  - intros Hno He Hp.
    rewrite (register_fresh dto w); [|by apply find_email_None|done|done].
    exists (registration config dto w), (registered config dto w). simpl. repeat split.
    rewrite filter_app, filter_email_none; [|done].
    by rewrite filter_cons_True.
  - intros Hno Hbad. apply register_invalid; [|done]. by apply find_email_None.
Qed.
End Register.

Lemma find_app_fresh {A} (p : A → bool) (c : list A) x :
  (∀ u, u ∈ c → p u = false) → find p (c ++ [x]) = find p [x].
Proof.
  induction c as [|u c IH]; intros Hf; [done|]. simpl.
  rewrite (Hf u); [|left]. apply IH. intros u' Hin. apply Hf. by right.
Qed.

(** ** Stored passwords *)

Section Truncation.
Context `{Bcrypt} `{!BcryptContract}.

(** Two strings that agree on the bytes bcrypt reads match the same hashes. *)
Lemma same_input_accepted d d' r s :
  bcrypt_input d' = bcrypt_input d → compareSync d' (hashSync d r s) = true.
Proof.
  intros Heq. rewrite compare_reads_72, hash_reads_72, Heq. apply compare_hash.
Qed.
End Truncation.

Section Passwords.
Context `{Bcrypt} `{!BcryptContract} `{JwtService}.
Variable config : JwtConfig.


End Passwords.

(** ** Refresh after issuance *)

Section Rotation.
Context `{Bcrypt} `{!BcryptContract} `{JwtService}.
Variable config : JwtConfig.

(** A token never matches what [AuthService.updateRefreshToken] stores for
    it: the stored value is the hash of a hash. *)
Lemma issued_token_mismatch token n :
  compareSync token (stored_for token n) = false.
Proof. unfold stored_for. apply compare_rehash. Qed.

Lemma refresh_after_update i token w :
  is_Some (stored_by_id i w) →
  let w1 := (AuthService.updateRefreshToken i token w).2 in
  AuthService.refreshTokens config i token w1 =
  (inl (UnauthorizedException "Invalid refresh token"), w1).
Proof.
  intros [u Hu]. rewrite updateRefreshToken_run. simpl.
  apply (refreshTokens_mismatch config i token _ (stored_for token (drawn w))).
  - rewrite stored_hash_after_update. by rewrite Hu.
  - apply hash_nonempty.
  - apply issued_token_mismatch.
Qed.

(** C1 (as the code behaves).  Once the issuance path has stored the hash
    for a refresh token of an existing user, presenting that very token to
    [refresh] is rejected with Unauthorized "Invalid refresh token" and the
    world is left as it was: no new pair is issued, nothing is rotated. *)
Theorem refresh_rejects_issued_token (i : ObjectId) (token : string) (w : World) :
  is_Some (stored_by_id i w) →
  let w1 := (AuthService.updateRefreshToken i token w).2 in
  stored_hash i w1 = Some (stored_for token (drawn w))
  ∧ AuthService.refreshTokens config i token w1 =
    (inl (UnauthorizedException "Invalid refresh token"), w1).
Proof.
  intros Hu. split; [|by apply refresh_after_update].
  rewrite updateRefreshToken_run. simpl.
  rewrite stored_hash_after_update. by destruct Hu as [u ->].
Qed.

(** The same on the whole path: the refresh token [register] returns is
    rejected by the first [refresh]. *)
Lemma register_then_refresh dto w a w' :
  AuthService.register config dto w = (inr a, w') →
  AuthService.refreshTokens config (pu_id (auth_user a))
                            (tokens_refreshToken (auth_tokens a)) w' =
  (inl (UnauthorizedException "Invalid refresh token"), w').
Proof.
  intros Hreg. apply register_inv in Hreg as (_ & _ & _ & -> & ->). simpl.
  eapply refreshTokens_mismatch.
  - unfold stored_hash, stored_by_id. simpl.
    rewrite find_app_fresh; [|apply newObjectId_fresh]. simpl.
    unfold has_id. simpl. rewrite N.eqb_refl. reflexivity.
  - apply hash_nonempty.
  - apply issued_token_mismatch.
Qed.
End Rotation.

(** ** What the lookups expose *)

Lemma findById_run i w :
  UserService.findById i w =
  (inr (UserService.withoutPassword ∘ hydrate MinusPassword <$> stored_by_id i w), w).
Proof.
  unfold UserService.findById.
  rewrite (bind_ok _ _ _ _ _ (model_findById_run _ _ w)).
  by destruct (stored_by_id i w).
Qed.

(** [findById] queries with the password path deselected. *)
Lemma findById_query_omits_password i w d :
  (model_findById i MinusPassword w).1 = inr (Some d) → doc_password d = None.
Proof.
  rewrite model_findById_run. simpl.
  destruct (stored_by_id i w); simpl; [|done]. by intros [= <-].
Qed.

(** With the schema as declared, the explicit [select('+password')] adds
    nothing: both lookups by email answer alike. *)
Lemma findByEmail_same_as_explicit e w :
  UserService.findByEmail e w = UserService.findByEmailWithPassword e w.
Proof. reflexivity. Qed.

(** C2 (as the code behaves).  For every stored record, [findByEmail] on its
    email answers with a document that carries the stored password hash of a
    record with that email: the default lookup does not leave the password
    out. *)
Theorem findByEmail_returns_password_hash (w : World) (u : User) :
  u ∈ users w →
  ∃ d u', UserService.findByEmail (email u) w = (inr (Some d), w)
        ∧ u' ∈ users w
        ∧ email u' = email u
        ∧ doc_password d = Some (password u').
Proof.
  intros Hin. destruct (find_email_Some (email u) _ u Hin eq_refl) as (u' & Hf & Hin' & He).
  exists (hydrate SelectDefault u'), u'. split; [|done].
  unfold UserService.findByEmail. rewrite model_findOne_run.
  unfold stored_by_email. by rewrite Hf.
Qed.

(** ** Password-stripped views *)

Lemma withoutPassword_strips s u :
  strips_only_password (UserService.withoutPassword (hydrate s u)) u.
Proof. by repeat split. Qed.

Section Views.
Context `{Bcrypt}.

Lemma createUser_inv dto w v w' :
  UserService.createUser dto w = (inr v, w') →
  ∃ u, users w' = (users w ++ [u])%list
     ∧ v = UserService.withoutPassword (hydrate SelectDefault u).
Proof.
  unfold UserService.createUser.
  rewrite (bind_ok _ _ _ _ _ (model_findOne_run _ _ w)).
  destruct (stored_by_email (dto_email dto) w); simpl; [done|].
  unfold bind at 1. unfold model_create_save. unfold bind at 1.
  unfold get_users at 1. cbn [email password].
  destruct (required (dto_email dto) && required (dto_password dto)); [|done].
  unfold bind, pre_save, bcrypt_hash, get_users, put_users, ret, bind. simpl.
  intros [= <- <-]. simpl. by eexists.
Qed.

(** C10.  The views [findById], [findAll] and [createUser] return agree
    with the stored record on every field but the password, which they do
    not have; in particular their [refreshToken] is the stored
    refresh-token hash. *)
Theorem views_keep_refresh_hash (w : World) :
  (∀ i u, stored_by_id i w = Some u →
     ∃ v, UserService.findById i w = (inr (Some v), w)
        ∧ strips_only_password v u
        ∧ (∀ h, refreshToken u = Some h → view_refreshToken v = Some h))
  ∧ (∃ vs, UserService.findAll w = (inr vs, w)
         ∧ Forall2 strips_only_password vs (users w))
  ∧ (∀ dto v w', UserService.createUser dto w = (inr v, w') →
       ∃ u, last (users w') = Some u ∧ strips_only_password v u).
Proof.
  split; [|split].
  - intros i u Hu. eexists. rewrite findById_run, Hu. simpl.
    split; [done|]. split; [apply withoutPassword_strips|done].
  - eexists. split; [reflexivity|]. simpl.
    induction (users w) as [|u c IH]; simpl; constructor; [|done].
    apply withoutPassword_strips.
  - intros dto v w' Hc. apply createUser_inv in Hc as (u & -> & ->).
    exists u. rewrite last_snoc. split; [done|]. apply withoutPassword_strips.
Qed.
End Views.

(** ** The access-token check and the exception filter *)

Lemma access_validate_rejected payload w :
  rejected_subject (sub payload) w →
  AccessTokenStrategy.validate payload w =
  (inl (Error "User not found or inactive"), w).
Proof.
  unfold rejected_subject, AccessTokenStrategy.validate. intros Hrej.
  rewrite (bind_ok _ _ _ _ _ (findById_run _ w)).
  destruct (stored_by_id (sub payload) w) as [u|]; simpl; [|done].
  by rewrite Hrej.
Qed.

(** C3 (as the code behaves).  For a subject that is missing or inactive the
    access-token check rejects the request and leaves the world unchanged,
    but what it throws is a plain [Error], not an Unauthorized exception, and
    the exception filter, bound to [HttpException] only, does not render it.
    What the filter is bound to it renders in the envelope with the status
    of the exception, the date, the request path and the message; so every
    Unauthorized exception comes out with status 401. *)
Theorem access_check_rejects_with_plain_error
    (payload : JwtPayload) (w : World)
    (request : Request) (node_env : option string) (date : N) :
  rejected_subject (sub payload) w →
  AccessTokenStrategy.validate payload w =
    (inl (Error "User not found or inactive"), w)
  ∧ is_unauthorized (Error "User not found or inactive") = false
  ∧ HttpExceptionFilter.respond (Error "User not found or inactive")
                                request node_env date = None
  ∧ (∀ h, ∃ resp,
        HttpExceptionFilter.respond (Http h) request node_env date = Some resp
        ∧ res_status resp = exn_status h
        ∧ statusCode (res_json resp) = exn_status h
        ∧ timestamp (res_json resp) = date
        ∧ path (res_json resp) = req_url request)
  ∧ (∀ msg, ∃ resp,
        HttpExceptionFilter.respond (UnauthorizedException msg)
                                    request node_env date = Some resp
        ∧ statusCode (res_json resp) = 401
        ∧ message (res_json resp) = msg).
Proof.
  intros Hrej. split; [by apply access_validate_rejected|].
  split; [done|]. split; [done|]. split.
  - intros h. by eexists.
  - intros msg. eexists. split; [reflexivity|]. split; [done|]. simpl.
    by destruct (decide (msg = "")) as [->|].
Qed.

(** ** Token issuance *)

Lemma js_or_nonempty a b : b ≠ "" → js_or a b ≠ "".
Proof. intros Hb. unfold js_or. destruct a as [s|]; [|done]. by case_decide. Qed.

Lemma js_or_Some_id s b : s ≠ "" → js_or (Some s) b = s.
Proof. intros Hs. unfold js_or. by case_decide. Qed.

Section Issuance.
Context `{JwtService}.

(** C9 (as the code behaves).  Each token of a pair is signed with the
    secret and the expiration configured for its own kind, over the same
    payload [{sub, email, role}]; the two secrets are read from two
    separate environment variables, each with its own default, and the
    defaults differ. *)
Theorem tokens_signed_per_kind
    (env : gmap string string) (i : ObjectId) (e r : string) (w : World) :
  let c := authConfig env in
  let payload := {| sub := i; payload_email := e; payload_role := r |} in
  AuthService.generateTokens c i e r w =
    (inr {| accessToken :=
              sign payload {| secret := accessTokenSecret c;
                              expiresIn := accessTokenExpiration c |} (now w);
            tokens_refreshToken :=
              sign payload {| secret := refreshTokenSecret c;
                              expiresIn := refreshTokenExpiration c |} (now w) |},
     w)
  ∧ accessTokenSecret c =
      js_or (env !! "ACCESS_TOKEN_SECRET") "default_access_token_secret"
  ∧ refreshTokenSecret c =
      js_or (env !! "REFRESH_TOKEN_SECRET") "default_refresh_token_secret"
  ∧ (env !! "ACCESS_TOKEN_SECRET" = None →
     env !! "REFRESH_TOKEN_SECRET" = None →
     accessTokenSecret c ≠ refreshTokenSecret c).
Proof.
  intros c payload. split; [|split; [done|split; [done|]]].
  - subst c payload. rewrite generateTokens_run. unfold tokens_for.
    rewrite !js_or_Some_id; [done| |]; by apply js_or_nonempty.
  - subst c. simpl. by intros -> ->.
Qed.
End Issuance.

(* ================================================================== *)
(** * Further properties of the services *)

(** ** More on the collection *)

Lemma find_email_None_inv e (c : list User) :
  find (has_email e) c = None → ∀ u, u ∈ c → email u ≠ e.
Proof.
  induction c as [|x c IH]; intros Hf u Hin; [by apply elem_of_nil in Hin|].
  simpl in Hf. destruct (has_email e x) eqn:E; [done|].
  apply elem_of_cons in Hin as [->|Hin]; [|by apply IH].
  intros He. apply has_email_true in He. congruence.
Qed.

Lemma find_id_None_update i f (c : list User) :
  find (has_id i) c = None → update_by_id i f c = c.
Proof.
  induction c as [|x c IH]; [done|]. simpl.
  destruct (has_id i x); [done|]. intros Hf. by rewrite IH.
Qed.

Lemma fmap_update_by_id {B} (g : User → B) i f (c : list User) :
  (∀ u, g (f u) = g u) → g <$> update_by_id i f c = g <$> c.
Proof.
  intros Hg. induction c as [|x c IH]; [done|]. cbn [update_by_id].
  destruct (has_id i x); rewrite !fmap_cons; [by rewrite Hg | by rewrite IH].
Qed.

Lemma Forall_update_by_id (P : User → Prop) i f (c : list User) :
  (∀ u, P u → P (f u)) → Forall P c → Forall P (update_by_id i f c).
Proof.
  intros Hf. induction 1 as [|x c Hx Hc IH]; [constructor|]. simpl.
  destruct (has_id i x); constructor; auto.
Qed.

Lemma find_unique {B} `{EqDecision B} (g : User → B) (c : list User) u :
  NoDup (g <$> c) → u ∈ c →
  find (λ x, bool_decide (g x = g u)) c = Some u.
Proof.
  induction c as [|x c IH]; intros Hnd Hin; [by apply elem_of_nil in Hin|].
  rewrite fmap_cons in Hnd. apply NoDup_cons in Hnd as [Hx Hnd]. simpl.
  apply elem_of_cons in Hin as [->|Hin].
  - by rewrite bool_decide_eq_true_2.
  - rewrite bool_decide_eq_false_2; [by apply IH|].
    intros Hg. apply Hx. rewrite Hg. by apply list_elem_of_fmap_2.
Qed.

Lemma find_has_id_ext i (c : list User) :
  find (has_id i) c = find (λ x, bool_decide (_id x = i)) c.
Proof.
  induction c as [|x c IH]; [done|]. simpl. rewrite IH. unfold has_id.
  destruct (N.eqb_spec (_id x) i).
  - by rewrite bool_decide_eq_true_2.
  - by rewrite bool_decide_eq_false_2.
Qed.

(** ** The methods of [AuthService] as equations *)

Section Runs.
Context `{Bcrypt} `{JwtService}.
Variable config : JwtConfig.

Lemma login_run dto w :
  AuthService.login config dto w =
  match stored_by_email (cred_email dto) w with
  | None => (inl (UnauthorizedException "Invalid credentials"), w)
  | Some u =>
      if comparePassword u (cred_password dto)
      then (inr {| auth_user := {| pu_id := _id u; pu_email := email u;
                                  pu_role := role_value (role u) |};
                   auth_tokens := tokens_for config (_id u) (email u)
                                    (role_value (role u)) (now w) |},
            issued_world config u w)
      else (inl (UnauthorizedException "Invalid credentials"), w)
  end.
Proof.
  destruct (stored_by_email (cred_email dto) w) as [u|] eqn:Hu.
  - destruct (comparePassword u (cred_password dto)) eqn:Hcmp.
    + unfold AuthService.login, UserService.findByEmailWithPassword.
      rewrite (bind_ok _ _ _ _ _ (model_findOne_run _ _ w)). rewrite Hu. simpl.
      unfold bind at 1. unfold doc_comparePassword, bcrypt_compare, ret. simpl.
      unfold comparePassword in Hcmp. rewrite Hcmp. reflexivity.
    + by apply (login_wrong_password config dto w u).
  - by apply login_unknown_email.
Qed.

Lemma register_run dto w :
  AuthService.register config dto w =
  match stored_by_email (cred_email dto) w with
  | Some _ => (inl (ConflictException "User with this email already exists"), w)
  | None =>
      if required (cred_email dto) && required (cred_password dto)
      then (inr (registration config dto w),
            {| users := users w ++ [registered config dto w];
               drawn := S (S (S (drawn w))); now := now w |})
      else (inl (ValidationError (cred_email dto) (cred_password dto)), w)
  end.
Proof.
  destruct (stored_by_email (cred_email dto) w) as [u|] eqn:Hu.
  - by apply (register_conflict config dto w u).
  - destruct (required (cred_email dto)) eqn:He, (required (cred_password dto)) eqn:Hp;
      simpl.
    + apply register_fresh; [done| |]; by apply required_true.
    + apply register_invalid; [done|]. right. by apply required_false.
    + apply register_invalid; [done|]. left. by apply required_false.
    + apply register_invalid; [done|]. left. by apply required_false.
Qed.

Lemma refreshTokens_run i presented w :
  AuthService.refreshTokens config i presented w =
  match stored_by_id i w with
  | None => (inl (UnauthorizedException "Access denied"), w)
  | Some u =>
      match refreshToken u with
      | None => (inl (UnauthorizedException "Access denied"), w)
      | Some stored =>
          if decide (stored = "")
          then (inl (UnauthorizedException "Access denied"), w)
          else if compareSync presented stored
          then (inr (tokens_for config (_id u) (email u) (role_value (role u))
                                (now w)),
                issued_world config u w)
          else (inl (UnauthorizedException "Invalid refresh token"), w)
      end
  end.
Proof.
  destruct (stored_by_id i w) as [u|] eqn:Hu.
  - destruct (refreshToken u) as [stored|] eqn:Hs.
    + destruct (decide (stored = "")) as [->|Hne].
      * apply refreshTokens_no_hash_like. by rewrite Hu.
      * destruct (compareSync presented stored) eqn:Hcmp.
        -- by apply (refreshTokens_match config i presented w u stored).
        -- apply (refreshTokens_mismatch config i presented w stored); try done.
           unfold stored_hash. by rewrite Hu.
    + apply refreshTokens_no_hash. unfold stored_hash. by rewrite Hu.
  - apply refreshTokens_no_hash. unfold stored_hash. by rewrite Hu.
Qed.

Lemma local_validate_run e p w :
  LocalStrategy.validate e p w =
  match stored_by_email e w with
  | None => (inl (UnauthorizedException "Invalid credentials"), w)
  | Some u =>
      if comparePassword u p
      then (inr (LocalStrategy.omitPassword (hydrate PlusPassword u)), w)
      else (inl (UnauthorizedException "Invalid credentials"), w)
  end.
Proof.
  unfold LocalStrategy.validate, UserService.findByEmailWithPassword.
  rewrite (bind_ok _ _ _ _ _ (model_findOne_run _ _ w)).
  destruct (stored_by_email e w) as [u|]; simpl; [|done].
  unfold bind, doc_comparePassword, bcrypt_compare, ret, comparePassword. simpl.
  by destruct (compareSync p (password u)).
Qed.
End Runs.

Lemma find_id_is_Some (c : list User) u :
  u ∈ c → is_Some (find (has_id (_id u)) c).
Proof.
  induction c as [|x c IH]; intros Hin; [by apply elem_of_nil in Hin|].
  simpl. destruct (has_id (_id u) x) eqn:E; [by eexists|].
  apply elem_of_cons in Hin as [->|Hin]; [|by apply IH].
  unfold has_id in E. by rewrite N.eqb_refl in E.
Qed.

Lemma core_set_refreshToken v u : core (set_refreshToken v u) = core u.
Proof. reflexivity. Qed.

Lemma core_update_by_id i v (c : list User) :
  core <$> update_by_id i (set_refreshToken v) c = core <$> c.
Proof. by apply fmap_update_by_id. Qed.

Lemma createUser_run `{Bcrypt} dto w :
  UserService.createUser dto w =
  match stored_by_email (dto_email dto) w with
  | Some _ => (inl (ConflictException "User with this email already exists"), w)
  | None =>
      if required (dto_email dto) && required (dto_password dto)
      then
        let u := {| _id := newObjectId (users w); email := dto_email dto;
                    password := hashSync (dto_password dto) 10 (genSalt (drawn w));
                    refreshToken := None; role := default USER (dto_role dto);
                    isActive := true |} in
        (inr (UserService.withoutPassword (hydrate SelectDefault u)),
         {| users := users w ++ [u]; drawn := S (drawn w); now := now w |})
      else (inl (ValidationError (dto_email dto) (dto_password dto)), w)
  end.
Proof.
  unfold UserService.createUser.
  rewrite (bind_ok _ _ _ _ _ (model_findOne_run _ _ w)).
  destruct (stored_by_email (dto_email dto) w); [done|]. simpl.
  unfold bind at 1. unfold model_create_save. unfold bind at 1.
  unfold get_users at 1. cbn [email password].
  by destruct (required (dto_email dto) && required (dto_password dto)).
Qed.

(** ** Login, registration and refresh together *)

Section Flows.
Context `{Bcrypt} `{JwtService}.
Variable config : JwtConfig.

Lemma issued_world_hash u w :
  u ∈ users w →
  stored_hash (_id u) (issued_world config u w) =
  Some (stored_for
          (tokens_refreshToken
             (tokens_for config (_id u) (email u) (role_value (role u)) (now w)))
          (drawn w)).
Proof.
  intros Hin. unfold issued_world. rewrite stored_hash_after_update.
  unfold stored_by_id. by destruct (find_id_is_Some _ _ Hin) as [x ->].
Qed.

(** X1.  When the first record with the email matches the password, [login]
    succeeds: the public user and the payload of both tokens are read from
    that stored record.  The record stored under its id gets the value
    written for the new refresh token; the record under every other id is
    exactly as it was, refresh-token value included; record by record the
    collection is unchanged but for that one field of records with that id. *)
Theorem login_issues_for_stored_user (dto : Credentials) (w : World) (u : User) :
  stored_by_email (cred_email dto) w = Some u →
  comparePassword u (cred_password dto) = true →
  ∃ a w',
    let written := Some (stored_for (tokens_refreshToken (auth_tokens a)) (drawn w)) in
    AuthService.login config dto w = (inr a, w')
    ∧ auth_user a = {| pu_id := _id u; pu_email := email u;
                       pu_role := role_value (role u) |}
    ∧ auth_tokens a =
        tokens_for config (_id u) (email u) (role_value (role u)) (now w)
    ∧ stored_hash (_id u) w' = written
    ∧ (∀ j, stored_by_id j w' =
            (λ x, if decide (j = _id u) then set_refreshToken written x else x)
              <$> stored_by_id j w)
    ∧ Forall2 (λ x y, y = x ∨ (_id x = _id u ∧ y = set_refreshToken written x))
              (users w) (users w').
Proof.
  intros Hu Hcmp. rewrite login_run, Hu, Hcmp. eexists _, _.
  split; [reflexivity|]. split; [done|]. split; [done|]. split; [|split].
  - apply issued_world_hash. by apply (find_elem_of _ _ _ Hu).
  - intros j. apply stored_by_id_update.
  - apply update_by_id_pointwise.
Qed.

(** X3.  After a successful [register], registering the same email again,
    with any password, fails with Conflict and changes nothing. *)
Theorem register_twice_conflict
    (dto : Credentials) (w w' : World) (a : AuthResult) (p : string) :
  AuthService.register config dto w = (inr a, w') →
  AuthService.register config
    {| cred_email := cred_email dto; cred_password := p |} w' =
  (inl (ConflictException "User with this email already exists"), w').
Proof.
  intros Hreg. apply register_inv in Hreg as (Hno & _ & _ & _ & ->).
  rewrite register_run. unfold stored_by_email in *. simpl.
  rewrite find_app_fresh.
  - simpl. by rewrite (proj2 (has_email_true _ (registered config dto w)) eq_refl).
  - intros u Hin. apply not_true_is_false. rewrite has_email_true.
    by apply (find_email_None_inv _ _ Hno).
Qed.

(** X4.  A call that fails has changed nothing.  [register] and
    [createUser] fail with Conflict when the email is taken and otherwise
    only with the validation error of the schema, for an empty email or
    password; [login] fails with Unauthorized "Invalid credentials" and
    [refreshTokens] with an Unauthorized exception. *)
Theorem failures_change_nothing (w : World) :
  (∀ dto e, (AuthService.register config dto w).1 = inl e →
     (AuthService.register config dto w).2 = w
     ∧ ((is_Some (stored_by_email (cred_email dto) w)
         ∧ e = ConflictException "User with this email already exists")
        ∨ (stored_by_email (cred_email dto) w = None
           ∧ (cred_email dto = "" ∨ cred_password dto = "")
           ∧ e = ValidationError (cred_email dto) (cred_password dto))))
  ∧ (∀ dto e, (UserService.createUser dto w).1 = inl e →
     (UserService.createUser dto w).2 = w
     ∧ ((is_Some (stored_by_email (dto_email dto) w)
         ∧ e = ConflictException "User with this email already exists")
        ∨ (stored_by_email (dto_email dto) w = None
           ∧ (dto_email dto = "" ∨ dto_password dto = "")
           ∧ e = ValidationError (dto_email dto) (dto_password dto))))
  ∧ (∀ dto e, (AuthService.login config dto w).1 = inl e →
     (AuthService.login config dto w).2 = w
     ∧ e = UnauthorizedException "Invalid credentials")
  ∧ (∀ i presented e,
     (AuthService.refreshTokens config i presented w).1 = inl e →
     (AuthService.refreshTokens config i presented w).2 = w
     ∧ is_unauthorized e = true).
Proof.
  assert (∀ a b, required a && required b = false → a = "" ∨ b = "") as Hreq.
  { intros a b [Ha|Hb]%andb_false_iff; [left|right]; by apply required_false. }
  split; [|split; [|split]].
  - intros dto e. rewrite register_run.
    destruct (stored_by_email _ w); simpl.
    { intros [= <-]. split; [done|]. left. by split; [eexists|]. }
    destruct (required _ && required _) eqn:Hv; simpl; [done|].
    intros [= <-]. split; [done|]. right. auto.
  - intros dto e. rewrite createUser_run.
    destruct (stored_by_email _ w); simpl.
    { intros [= <-]. split; [done|]. left. by split; [eexists|]. }
    destruct (required _ && required _) eqn:Hv; simpl; [done|].
    intros [= <-]. split; [done|]. right. auto.
  - intros dto e. rewrite login_run.
    destruct (stored_by_email _ w) as [u|]; simpl; [|by intros [= <-]].
    destruct (comparePassword u _); simpl; [done|]. by intros [= <-].
  - intros i presented e. rewrite refreshTokens_run.
    destruct (stored_by_id i w) as [u|]; simpl; [|by intros [= <-]].
    destruct (refreshToken u) as [stored|]; simpl; [|by intros [= <-]].
    destruct (decide (stored = "")); simpl; [by intros [= <-]|].
    destruct (compareSync presented stored); simpl; [done|]. by intros [= <-].
Qed.

(** X8.  Issuing and revoking tokens never touches user data: after [login],
    [logout] and [refreshTokens], whatever their outcome, every record has
    the id, email, password, role and active flag it had, in the same order;
    [register] keeps the old records as they were and adds at most one. *)
Theorem tokens_leave_user_data (w : World) :
  (∀ dto, core <$> users (AuthService.login config dto w).2 = core <$> users w)
  ∧ (∀ i, core <$> users (AuthService.logout i w).2 = core <$> users w)
  ∧ (∀ i presented,
       core <$> users (AuthService.refreshTokens config i presented w).2 =
       core <$> users w)
  ∧ (∀ dto, ∃ rest,
       users (AuthService.register config dto w).2 = (users w ++ rest)%list
       ∧ (length rest ≤ 1)%nat).
Proof.
  split; [|split; [|split]].
  - intros dto. rewrite login_run.
    destruct (stored_by_email _ w) as [u|]; simpl; [|done].
    destruct (comparePassword u _); simpl; [|done]. apply core_update_by_id.
  - intros i. rewrite logout_run. simpl. apply core_update_by_id.
  - intros i presented. rewrite refreshTokens_run.
    destruct (stored_by_id i w) as [u|]; simpl; [|done].
    destruct (refreshToken u) as [stored|]; simpl; [|done].
    destruct (decide (stored = "")); simpl; [done|].
    destruct (compareSync presented stored); simpl; [|done].
    apply core_update_by_id.
  - intros dto. rewrite register_run.
    destruct (stored_by_email _ w); simpl.
    + exists []. rewrite app_nil_r. split; [done|]. simpl. lia.
    + destruct (required _ && required _); simpl.
      * eexists [_]. split; [done|]. simpl. lia.
      * exists []. rewrite app_nil_r. split; [done|]. simpl. lia.
Qed.

(** X9.  Token operations on one id leave the record stored under any other
    id exactly as it was. *)
Theorem other_users_untouched (i j : ObjectId) (w : World) :
  j ≠ i →
  stored_by_id j (AuthService.logout i w).2 = stored_by_id j w
  ∧ (∀ token,
       stored_by_id j (AuthService.updateRefreshToken i token w).2 =
       stored_by_id j w)
  ∧ (∀ presented,
       stored_by_id j (AuthService.refreshTokens config i presented w).2 =
       stored_by_id j w).
Proof.
  intros Hne. split; [|split].
  - rewrite logout_run. unfold stored_by_id. simpl.
    by apply find_update_other.
  - intros token. rewrite updateRefreshToken_run. unfold stored_by_id. simpl.
    by apply find_update_other.
  - intros presented. rewrite refreshTokens_run.
    destruct (stored_by_id i w) as [u|] eqn:Hu; simpl; [|done].
    destruct (refreshToken u) as [stored|]; simpl; [|done].
    destruct (decide (stored = "")); simpl; [done|].
    destruct (compareSync presented stored); simpl; [|done].
    apply find_elem_of in Hu as [_ Hid%has_id_true].
    unfold stored_by_id. simpl. rewrite Hid. by apply find_update_other.
Qed.

(** X10.  For an id no record has, [logout] still succeeds and the world is
    unchanged, and storing a refresh token changes no record. *)
Theorem unknown_id_is_noop (i : ObjectId) (w : World) :
  stored_by_id i w = None →
  AuthService.logout i w = (inr "Logged out successfully", w)
  ∧ (∀ token, users (UserService.updateRefreshToken i token w).2 = users w)
  ∧ (∀ token, users (AuthService.updateRefreshToken i token w).2 = users w).
Proof.
  intros Hno. unfold stored_by_id in Hno. split; [|split].
  - rewrite logout_run, find_id_None_update; [|done]. by rewrite world_eta.
  - intros token. simpl. by apply find_id_None_update.
  - intros token. rewrite updateRefreshToken_run. simpl.
    by apply find_id_None_update.
Qed.
End Flows.

Section FlowsContract.
Context `{Bcrypt} `{!BcryptContract} `{JwtService}.
Variable config : JwtConfig.

(** X2.  After a successful [register], [login] with the same email succeeds
    for the same user with the same password, and with every password that
    has the same first 72 bytes.  (For every bcrypt meeting
    [BcryptContract].) *)
Theorem register_then_login
    (dto : Credentials) (w w' : World) (a : AuthResult) (p : string) :
  AuthService.register config dto w = (inr a, w') →
  bcrypt_input p = bcrypt_input (cred_password dto) →
  ∃ b w'', AuthService.login config
             {| cred_email := cred_email dto; cred_password := p |} w' =
           (inr b, w'')
         ∧ auth_user b = auth_user a.
Proof.
  intros Hreg Hsame. apply register_inv in Hreg as (Hno & _ & _ & -> & ->).
  assert (stored_by_email (cred_email dto)
            {| users := users w ++ [registered config dto w];
               drawn := S (S (S (drawn w))); now := now w |} =
          Some (registered config dto w)) as Hfound.
  { unfold stored_by_email in *. simpl. rewrite find_app_fresh.
    - simpl. by rewrite (proj2 (has_email_true _ (registered config dto w)) eq_refl).
    - intros u Hin. apply not_true_is_false. rewrite has_email_true.
      by apply (find_email_None_inv _ _ Hno). }
  rewrite login_run. cbn [cred_email cred_password]. rewrite Hfound.
  unfold comparePassword. simpl. rewrite same_input_accepted; [|done].
  by eexists _, _.
Qed.

(** X13.  What [UserService.updateRefreshToken] stores for a token of an
    existing user is accepted by [refreshTokens] for that token, and for
    every string that has the same first 72 bytes.  (For every bcrypt
    meeting [BcryptContract].) *)
Theorem stored_token_round_trip
    (i : ObjectId) (token presented : string) (w : World) :
  is_Some (stored_by_id i w) →
  bcrypt_input presented = bcrypt_input token →
  let w1 := (UserService.updateRefreshToken i token w).2 in
  ∃ tokens w2, AuthService.refreshTokens config i presented w1 = (inr tokens, w2).
Proof.
  intros [u Hu] Hsame. simpl.
  set (w1 := {| users := _ |}).
  assert (stored_by_id i w1 =
          Some (set_refreshToken (Some (hashSync token 10 (genSalt (drawn w)))) u))
    as Hu1.
  { unfold stored_by_id in *. simpl. rewrite find_update_by_id; [|done].
    by rewrite Hu. }
  rewrite refreshTokens_run, Hu1. simpl.
  destruct (decide _) as [He|_]; [by apply hash_nonempty in He|].
  rewrite same_input_accepted; [|done]. by eexists _, _.
Qed.
End FlowsContract.

(** ** What holds in every reachable world *)

Lemma find_app_l {A} (p : A → bool) (l k : list A) x :
  find p l = Some x → find p (l ++ k) = Some x.
Proof.
  induction l as [|y l IH]; [done|]. simpl. destruct (p y); [done|]. apply IH.
Qed.

Lemma find_app_r {A} (p : A → bool) (l k : list A) :
  find p l = None → find p (l ++ k) = find p k.
Proof.
  induction l as [|y l IH]; [done|]. simpl. destruct (p y); [done|]. apply IH.
Qed.

Lemma find_update_core (p : User → bool) i v (c : list User) :
  (∀ u, p (set_refreshToken v u) = p u) →
  core <$> find p (update_by_id i (set_refreshToken v) c) = core <$> find p c.
Proof.
  intros Hp. induction c as [|x c IH]; [done|]. cbn [update_by_id].
  destruct (has_id i x); cbn [find].
  - rewrite Hp. by destruct (p x).
  - by destruct (p x).
Qed.

Lemma core_fields u u' :
  core u = core u' →
  _id u = _id u' ∧ email u = email u' ∧ password u = password u'
  ∧ role u = role u' ∧ isActive u = isActive u'.
Proof. unfold core, set_refreshToken. intros [= -> -> -> -> ->]. done. Qed.

Lemma find_core_Some (p : User → bool) i v (c : list User) u :
  (∀ x, p (set_refreshToken v x) = p x) →
  find p c = Some u →
  ∃ u', find p (update_by_id i (set_refreshToken v) c) = Some u'
      ∧ core u' = core u.
Proof.
  intros Hp Hu. induction c as [|x c IH]; [done|]. simpl in *.
  destruct (has_id i x); simpl.
  - rewrite Hp. destruct (p x); [|by eexists].
    injection Hu as <-. by eexists.
  - destruct (p x); [by eexists|]. by apply IH.
Qed.

Section Invariants.
Context `{Bcrypt} `{JwtService}.
Variable config : JwtConfig.

Lemma emails_well_update i v (c : list User) :
  emails_well c → emails_well (update_by_id i (set_refreshToken v) c).
Proof.
  intros [Hnd Hne]. split.
  - by rewrite fmap_update_by_id.
  - by apply Forall_update_by_id.
Qed.

Lemma reachable_emails w : reachable config w → emails_well (users w).
Proof.
  induction 1 as [n t | w t _ IH | w dto _ IH | w dto _ IH | w i _ IH
                  | w i presented _ IH].
  - split; simpl; constructor.
  - done.
  - rewrite register_run.
    destruct (stored_by_email _ w) eqn:Hno; simpl; [done|].
    destruct (required (cred_email dto)) eqn:He; simpl; [|done].
    destruct (required (cred_password dto)); simpl; [|done].
    destruct IH as [Hnd Hne]. split; simpl.
    + rewrite fmap_app. apply NoDup_app. split; [done|]. split.
      * intros x (u & -> & Hin)%list_elem_of_fmap Hx. simpl in Hx.
        apply list_elem_of_singleton in Hx.
        by apply (find_email_None_inv _ _ Hno u Hin).
      * apply NoDup_singleton.
    + apply Forall_app. split; [done|]. constructor; [|constructor].
      by apply required_true.
  - rewrite login_run. destruct (stored_by_email _ w) as [u|]; simpl; [|done].
    destruct (comparePassword u _); simpl; [|done]. by apply emails_well_update.
  - rewrite logout_run. simpl. by apply emails_well_update.
  - rewrite refreshTokens_run.
    destruct (stored_by_id i w) as [u|]; simpl; [|done].
    destruct (refreshToken u) as [stored|]; simpl; [|done].
    destruct (decide (stored = "")); simpl; [done|].
    destruct (compareSync presented stored); simpl; [|done].
    by apply emails_well_update.
Qed.

(** X5.  In every reachable world no two records share an email and no
    record has an empty email, so each stored record is the one a lookup by
    its email returns. *)
Theorem reachable_unique_emails (w : World) :
  reachable config w →
  NoDup (email <$> users w)
  ∧ (∀ u, u ∈ users w → email u ≠ "" ∧ stored_by_email (email u) w = Some u).
Proof.
  intros Hr. destruct (reachable_emails w Hr) as [Hnd Hne].
  split; [done|]. intros u Hin. split.
  - rewrite Forall_forall in Hne. by apply Hne.
  - unfold stored_by_email, has_email. by apply (find_unique email).
Qed.

Lemma registrations_kept_update regs i v w n t :
  registrations_kept regs w →
  registrations_kept regs
    {| users := update_by_id i (set_refreshToken v) (users w);
       drawn := n; now := t |}.
Proof.
  intros Hk dto Hin. destruct (Hk dto Hin) as (u & k & Hu & Hp).
  destruct (find_core_Some (has_email (cred_email dto)) i v (users w) u
              (λ _, eq_refl) Hu) as (u' & Hu' & Hc).
  exists u', k. split; [done|].
  apply core_fields in Hc as (_ & _ & -> & _). done.
Qed.

Lemma held_is_stored_issue held i token w n t :
  is_Some (stored_by_id i w) →
  held_is_stored held w →
  held_is_stored (<[i := token]> held)
    {| users := update_by_id i (set_refreshToken (Some (stored_for token n)))
                             (users w);
       drawn := t.1; now := t.2 |}.
Proof.
  intros [u Hu] Hh j. destruct (decide (j = i)) as [->|Hne].
  - rewrite lookup_insert_eq. rewrite stored_by_id_update, Hu. simpl.
    case_decide; [|done]. by eexists _, _.
  - rewrite lookup_insert_ne; [|done]. specialize (Hh j).
    unfold stored_hash. rewrite stored_by_id_update.
    destruct (held !! j) as [tj|].
    + destruct Hh as (uj & k & -> & Hr). simpl. case_decide; [done|].
      by eexists _, _.
    + unfold stored_hash in Hh. destruct (stored_by_id j w); [|done]. simpl.
      by case_decide.
Qed.

Lemma held_is_stored_revoke held i w n t :
  held_is_stored held w →
  held_is_stored (delete i held)
    {| users := update_by_id i (set_refreshToken None) (users w);
       drawn := n; now := t |}.
Proof.
  intros Hh j. destruct (decide (j = i)) as [->|Hne].
  - rewrite lookup_delete_eq. rewrite stored_hash_after_update.
    by destruct (stored_by_id i w).
  - rewrite lookup_delete_ne; [|done]. specialize (Hh j).
    unfold stored_hash. rewrite stored_by_id_update.
    destruct (held !! j) as [tj|].
    + destruct Hh as (uj & k & -> & Hr). simpl. case_decide; [done|].
      by eexists _, _.
    + unfold stored_hash in Hh. destruct (stored_by_id j w); [|done]. simpl.
      by case_decide.
Qed.

Lemma issued_world_kept regs held u w :
  u ∈ users w →
  registrations_kept regs w ∧ held_is_stored held w →
  registrations_kept regs (issued_world config u w)
  ∧ held_is_stored
      (<[_id u := tokens_refreshToken
                    (tokens_for config (_id u) (email u) (role_value (role u))
                                (now w))]> held)
      (issued_world config u w).
Proof.
  intros Hin [Hk Hh]. split; [by apply registrations_kept_update|].
  apply (held_is_stored_issue held (_id u) _ w (drawn w) (S (S (drawn w)), now w));
    [|done].
  apply find_id_is_Some, Hin.
Qed.

Lemma history_kept w regs held :
  history config w regs held →
  registrations_kept regs w ∧ held_is_stored held w.
Proof.
  induction 1 as [n t | w regs held t _ IH | w regs held dto _ IH
                  | w regs held dto _ IH | w regs held i _ IH
                  | w regs held i presented _ IH].
  - split; [by intros dto Hin%elem_of_nil|]. intros i. by rewrite lookup_empty.
  - done.
  - rewrite register_run.
    destruct (stored_by_email _ w) eqn:Hno; simpl; [done|].
    destruct (required (cred_email dto)) eqn:He; simpl; [|done].
    destruct (required (cred_password dto)); simpl; [|done].
    destruct IH as [Hk Hh].
    assert (stored_by_id (newObjectId (users w)) w = None) as Hfresh.
    { unfold stored_by_id. destruct (find _ _) as [x|] eqn:Hx; [|done].
      apply find_elem_of in Hx as [Hin Hid%has_id_true].
      apply newObjectId_bound in Hin. lia. }
    split.
    + intros d [->|Hin]%elem_of_cons.
      * exists (registered config dto w), (drawn w). split; [|done].
        unfold stored_by_email in *. simpl. rewrite find_app_r; [|done]. simpl.
        by rewrite (proj2 (has_email_true _ (registered config dto w)) eq_refl).
      * destruct (Hk d Hin) as (u & k & Hu & Hp). exists u, k. split; [|done].
        unfold stored_by_email in *. simpl. by apply find_app_l.
    + intros j. simpl. destruct (decide (j = newObjectId (users w))) as [->|Hne].
      * rewrite lookup_insert_eq. exists (registered config dto w), (S (drawn w)).
        split; [|done]. unfold stored_by_id in *. simpl.
        rewrite find_app_r; [|done]. simpl. unfold has_id. simpl.
        by rewrite N.eqb_refl.
      * rewrite lookup_insert_ne; [|done]. specialize (Hh j).
        assert (stored_by_id j {| users := users w ++ [registered config dto w];
                                  drawn := S (S (S (drawn w))); now := now w |} =
                stored_by_id j w) as Hsame.
        { unfold stored_by_id. simpl.
          destruct (find (has_id j) (users w)) as [x|] eqn:Hx;
            [by apply find_app_l|].
          rewrite find_app_r; [|done]. simpl. unfold has_id. simpl.
          by rewrite (proj2 (N.eqb_neq _ _)). }
        unfold stored_hash. rewrite Hsame. exact Hh.
  - rewrite login_run.
    destruct (stored_by_email _ w) as [u|] eqn:Hu; simpl; [|done].
    destruct (comparePassword u _); simpl; [|done].
    apply issued_world_kept; [|done]. by apply (find_elem_of _ _ _ Hu).
  - rewrite logout_run. destruct IH as [Hk Hh]. split.
    + by apply registrations_kept_update.
    + by apply held_is_stored_revoke.
  - rewrite refreshTokens_run.
    destruct (stored_by_id i w) as [u|] eqn:Hu; simpl; [|done].
    destruct (refreshToken u) as [stored|]; simpl; [|done].
    destruct (decide (stored = "")); simpl; [done|].
    destruct (compareSync presented stored); simpl; [|done].
    apply find_elem_of in Hu as [Hin Hid%has_id_true]. rewrite <- Hid.
    by apply issued_world_kept.
Qed.
End Invariants.

Section InvariantsContract.
Context `{Bcrypt} `{!BcryptContract} `{JwtService}.
Variable config : JwtConfig.

(** X6.  Whatever happened since (other registrations, logins, logouts,
    refreshes, time passing), a registration that succeeded still stands:
    the record with its email stores a bcrypt hash of the password it was
    registered with, not that password, and [login] with the registered
    credentials succeeds.  (For every bcrypt meeting [BcryptContract].) *)
Theorem registered_can_always_login
    (w : World) (regs : list Credentials) (held : gmap ObjectId string)
    (dto : Credentials) :
  history config w regs held → dto ∈ regs →
  (∃ u n, stored_by_email (cred_email dto) w = Some u
        ∧ password u = hashSync (cred_password dto) 10 (genSalt n)
        ∧ password u ≠ cred_password dto)
  ∧ (∃ a w', AuthService.login config dto w = (inr a, w')
           ∧ pu_email (auth_user a) = cred_email dto).
Proof.
  intros Hh Hin. destruct (history_kept config w regs held Hh) as [Hk _].
  destruct (Hk dto Hin) as (u & n & Hu & Hp). split.
  - exists u, n. split; [done|]. split; [done|]. rewrite Hp. apply hash_not_plain.
  - rewrite login_run, Hu. unfold comparePassword. rewrite Hp, compare_hash.
    eexists _, _. split; [reflexivity|]. simpl.
    apply find_elem_of in Hu as [_ He]. by apply has_email_true.
Qed.

(** X7.  At no point of a history does a user get a new pair for the refresh
    token it holds: the token most recently returned to a user id and not
    revoked by [logout] is rejected as an invalid refresh token, and for an
    id that holds none every presented string is denied.  (For every bcrypt
    meeting [BcryptContract].) *)
Theorem held_token_is_refused
    (w : World) (regs : list Credentials) (held : gmap ObjectId string)
    (i : ObjectId) :
  history config w regs held →
  match held !! i with
  | Some token =>
      AuthService.refreshTokens config i token w =
      (inl (UnauthorizedException "Invalid refresh token"), w)
  | None =>
      ∀ presented,
        AuthService.refreshTokens config i presented w =
        (inl (UnauthorizedException "Access denied"), w)
  end.
Proof.
  intros Hh. destruct (history_kept config w regs held Hh) as [_ Hs].
  specialize (Hs i). destruct (held !! i) as [token|].
  - destruct Hs as (u & n & Hu & Hr).
    apply (refreshTokens_mismatch config i token w (stored_for token n)).
    + unfold stored_hash. by rewrite Hu.
    + apply hash_nonempty.
    + unfold stored_for. apply compare_rehash.
  - intros presented. by apply refreshTokens_no_hash.
Qed.
End InvariantsContract.

(** ** The guards *)

Lemma access_validate_run payload w :
  AccessTokenStrategy.validate payload w =
  match stored_by_id (sub payload) w with
  | Some u => if isActive u then (inr (principal payload), w)
              else (inl (Error "User not found or inactive"), w)
  | None => (inl (Error "User not found or inactive"), w)
  end.
Proof.
  unfold AccessTokenStrategy.validate.
  rewrite (bind_ok _ _ _ _ _ (findById_run _ w)).
  destruct (stored_by_id (sub payload) w) as [u|]; simpl; [|done].
  by destruct (isActive u).
Qed.

Lemma refresh_validate_run payload w :
  RefreshTokenStrategy.validate payload w =
  match stored_by_id (sub payload) w with
  | Some u =>
      if isActive u
      then if truthy (refreshToken u) then (inr (principal payload), w)
           else (inl (Error "Refresh token not found"), w)
      else (inl (Error "User not found or inactive"), w)
  | None => (inl (Error "User not found or inactive"), w)
  end.
Proof.
  unfold RefreshTokenStrategy.validate.
  rewrite (bind_ok _ _ _ _ _ (findOne_run _ w)).
  destruct (stored_by_id (sub payload) w) as [u|]; simpl; [|done].
  destruct (isActive u); simpl; [|done]. by destruct (truthy (refreshToken u)).
Qed.

(** X11.  The access-token check lets a request through exactly when the
    subject of the token is a stored, active user; the refresh-token check
    exactly when, in addition, a non-empty refresh-token value is stored for
    that user.  Either check, when it passes, attaches the id, email and role
    of the token (not of the stored record) and changes nothing. *)
Theorem guards_accept_iff (payload : JwtPayload) (w : World) :
  ((∃ u, stored_by_id (sub payload) w = Some u ∧ isActive u = true) ↔
     AccessTokenStrategy.validate payload w = (inr (principal payload), w))
  ∧ ((∃ u, stored_by_id (sub payload) w = Some u ∧ isActive u = true
         ∧ truthy (refreshToken u) = true) ↔
     RefreshTokenStrategy.validate payload w = (inr (principal payload), w))
  ∧ (∀ r, (AccessTokenStrategy.validate payload w).1 = inr r
          ∨ (RefreshTokenStrategy.validate payload w).1 = inr r →
          r = principal payload).
Proof.
  rewrite access_validate_run, refresh_validate_run.
  destruct (stored_by_id (sub payload) w) as [u|]; simpl.
  - destruct (isActive u) eqn:Ha, (truthy (refreshToken u)) eqn:Ht; simpl.
    all: split; [split|split; [split|]].
    all: try done.
    all: try (intros _; exists u; done).
    all: try (intros (u0 & Hu0 & Hrest); injection Hu0 as <-;
              destruct_and?; congruence).
    all: intros r [Hr|Hr]; by simplify_eq.
  - split; [split|split; [split|]]; try done.
    + by intros (u0 & Hu0 & _).
    + by intros (u0 & Hu0 & _).
    + by intros r [Hr|Hr].
Qed.

Section LocalGuard.
Context `{Bcrypt} `{JwtService}.
Variable config : JwtConfig.

(** X12.  The guard of the login endpoint and [login] take the same
    decision: [LocalStrategy.validate] passes exactly for the credentials
    for which [login] succeeds.  The guard changes nothing, and the document
    it hands on has no password. *)
Theorem local_guard_agrees_with_login (e p : string) (w : World) :
  ((∃ d, (LocalStrategy.validate e p w).1 = inr d) ↔
   (∃ a, (AuthService.login config
            {| cred_email := e; cred_password := p |} w).1 = inr a))
  ∧ (LocalStrategy.validate e p w).2 = w
  ∧ (∀ d, (LocalStrategy.validate e p w).1 = inr d → doc_password d = None).
Proof.
  rewrite local_validate_run, login_run. simpl.
  destruct (stored_by_email e w) as [u|]; simpl.
  - destruct (comparePassword u p); simpl.
    + split; [split; intros _; by eexists|]. split; [done|].
      by intros d [= <-].
    + split; [split; by intros [? ?]|]. done.
  - split; [split; by intros [? ?]|]. done.
Qed.
End LocalGuard.

(** ** What logout leaves in place *)

Section AfterLogout.
Context `{Bcrypt} `{JwtService}.
Variable config : JwtConfig.

(** X18.  Logging a user out, whoever it is, never changes the outcome of a
    later [login]: the same credentials are accepted or rejected as before,
    with the same public user and the same token pair. *)
Theorem logout_keeps_login (i : ObjectId) (dto : Credentials) (w : World) :
  (AuthService.login config dto (AuthService.logout i w).2).1 =
  (AuthService.login config dto w).1.
Proof.
  rewrite !login_run, logout_run. unfold stored_by_email. simpl.
  pose proof (find_update_core (has_email (cred_email dto)) i None (users w)
                (λ _, eq_refl)) as Hc.
  destruct (find _ (update_by_id _ _ _)) as [u1|], (find _ (users w)) as [u|];
    simpl in Hc; try done.
  assert (core u1 = core u) as Hcu by congruence.
  apply core_fields in Hcu as (-> & -> & Hp & -> & _).
  unfold comparePassword. rewrite Hp. by destruct (compareSync _ _).
Qed.

(** X19.  Logout revokes the refresh token only.  The access-token check
    decides after [logout] as it did before, for every token, so an access
    token issued earlier keeps working; the refresh-token check turns the
    logged-out user away. *)
Theorem logout_revokes_refresh_only (i : ObjectId) (payload : JwtPayload) (w : World) :
  (AccessTokenStrategy.validate payload (AuthService.logout i w).2).1 =
  (AccessTokenStrategy.validate payload w).1
  ∧ (sub payload = i →
     ∃ msg, RefreshTokenStrategy.validate payload (AuthService.logout i w).2 =
            (inl (Error msg), (AuthService.logout i w).2)).
Proof.
  split.
  - rewrite !access_validate_run, logout_run. unfold stored_by_id. simpl.
    pose proof (find_update_core (has_id (sub payload)) i None (users w)
                  (λ _, eq_refl)) as Hc.
    destruct (find _ (update_by_id _ _ _)) as [u1|], (find _ (users w)) as [u|];
      simpl in Hc; try done.
    assert (core u1 = core u) as Hcu by congruence.
    apply core_fields in Hcu as (_ & _ & _ & _ & ->).
    by destruct (isActive u).
  - intros <-. apply refresh_validate_rejects. apply stored_hash_after_logout.
Qed.
End AfterLogout.

(** ** Creating and looking up *)

Section Lookups.
Context `{Bcrypt}.

(** X14.  A user that [createUser] has created is found again: the view it
    returned is what [findById] answers for its id and what [findAll] lists
    last, after the views it listed before.  The view has the email of the
    request, the requested role or else [user], the active flag set and no
    refresh-token value. *)
Theorem createUser_then_lookup
    (dto : CreateUserDto) (w w' : World) (v : UserWithoutPassword) :
  UserService.createUser dto w = (inr v, w') →
  UserService.findById (view_id v) w' = (inr (Some v), w')
  ∧ (∃ vs, UserService.findAll w = (inr vs, w)
         ∧ UserService.findAll w' = (inr (vs ++ [v])%list, w'))
  ∧ view_email v = dto_email dto
  ∧ view_role v = role_value (default USER (dto_role dto))
  ∧ view_isActive v = true
  ∧ view_refreshToken v = None.
Proof.
  rewrite createUser_run.
  destruct (stored_by_email (dto_email dto) w); simpl; [done|].
  destruct (required _ && required _); simpl; [|done].
  intros [= <- <-]. simpl. split; [|split; [|done]].
  - rewrite findById_run. unfold stored_by_id. simpl.
    rewrite find_app_fresh; [|apply newObjectId_fresh]. simpl.
    unfold has_id. simpl. by rewrite N.eqb_refl.
  - eexists. split; [reflexivity|].
    unfold UserService.findAll, model_find, bind, get_users, ret. simpl.
    by rewrite !fmap_app.
Qed.
End Lookups.

(** ** Configuration, the exception filter, cookies *)

(** X15.  No value of the token configuration is ever empty: a variable that
    is unset, or set to the empty string, yields the default of its field,
    and a variable set to a non-empty string yields that string. *)
Theorem authConfig_defaults_and_overrides (env : gmap string string) :
  let c := authConfig env in
  (accessTokenSecret c ≠ "" ∧ accessTokenExpiration c ≠ ""
   ∧ refreshTokenSecret c ≠ "" ∧ refreshTokenExpiration c ≠ "")
  ∧ (env !! "ACCESS_TOKEN_SECRET" ∈ [None; Some ""] →
       accessTokenSecret c = "default_access_token_secret")
  ∧ (env !! "ACCESS_TOKEN_EXPIRATION" ∈ [None; Some ""] →
       accessTokenExpiration c = "15m")
  ∧ (env !! "REFRESH_TOKEN_SECRET" ∈ [None; Some ""] →
       refreshTokenSecret c = "default_refresh_token_secret")
  ∧ (env !! "REFRESH_TOKEN_EXPIRATION" ∈ [None; Some ""] →
       refreshTokenExpiration c = "7d")
  ∧ (∀ s, s ≠ "" →
       (env !! "ACCESS_TOKEN_SECRET" = Some s → accessTokenSecret c = s)
       ∧ (env !! "ACCESS_TOKEN_EXPIRATION" = Some s → accessTokenExpiration c = s)
       ∧ (env !! "REFRESH_TOKEN_SECRET" = Some s → refreshTokenSecret c = s)
       ∧ (env !! "REFRESH_TOKEN_EXPIRATION" = Some s → refreshTokenExpiration c = s)).
Proof.
  intros c. subst c. unfold authConfig. cbn [accessTokenSecret
    accessTokenExpiration refreshTokenSecret refreshTokenExpiration].
  assert (∀ o d, o ∈ [None; Some ""] → js_or o d = d) as Hdef.
  { intros o d [->|[->|[]%elem_of_nil]%elem_of_cons]%elem_of_cons; done. }
  split; [repeat split; by apply js_or_nonempty|].
  repeat (split; [by apply Hdef|]).
  intros s Hs. repeat split; intros ->; by apply js_or_Some_id.
Qed.

(** X16.  The response of the exception filter has the status of the
    exception, in the header and in the body alike, the date it was given
    and the path of the request; the name and the stack of the exception are
    in the body exactly when [NODE_ENV] is not [production]; the message is
    not empty unless the message of the exception is. *)
Theorem filter_envelope
    (h : HttpException) (request : Request) (node_env : option string) (date : N) :
  let body := res_json (HttpExceptionFilter.catch h request node_env date) in
  res_status (HttpExceptionFilter.catch h request node_env date) = exn_status h
  ∧ statusCode body = exn_status h
  ∧ timestamp body = date
  ∧ path body = req_url request
  ∧ (node_env = Some "production" → env_error body = None ∧ env_stack body = None)
  ∧ (node_env ≠ Some "production" →
       env_error body = Some (exn_name h) ∧ env_stack body = Some (exn_stack h))
  ∧ (exn_message h ≠ "" → message body ≠ "").
Proof.
  simpl. repeat split; try done.
  - by rewrite bool_decide_eq_false_2; [|intros ?].
  - by rewrite bool_decide_eq_false_2; [|intros ?].
  - by rewrite bool_decide_eq_true_2.
  - by rewrite bool_decide_eq_true_2.
  - intros Hm. destruct (exn_response h) as [?|m]; [done|].
    by apply js_or_nonempty.
Qed.

(** X17.  [clearAuthCookies] clears exactly the cookies that [setAuthCookies]
    sets when called with its default for [isSecure]: the same two names, in
    the same order, with the same path, HttpOnly, SameSite and Secure
    attributes. *)
Theorem clear_targets_what_set_wrote
    (res : list Cookie) (a r : string) (node_env : option string) :
  cookie_key <$> setAuthCookies res a r (isProduction node_env) =
  clearAuthCookies (cookie_key <$> res) node_env.
Proof. unfold setAuthCookies, clearAuthCookies. by rewrite fmap_app. Qed.

(* ================================================================== *)
(** * The properties on concrete worlds *)

#[local] Existing Instances Reference.bcrypt Reference.jwt.

Lemma string_take_idemp n s : string_take n (string_take n s) = string_take n s.
Proof.
  revert s. induction n as [|n IH]; intros [|c s]; simpl; try done.
  by rewrite IH.
Qed.

Lemma bcrypt_input_idemp d : bcrypt_input (bcrypt_input d) = bcrypt_input d.
Proof. apply string_take_idemp. Qed.

Lemma marker_for_input d : Reference.marker_for (bcrypt_input d) = Reference.marker_for d.
Proof. by destruct d. Qed.

Lemma marker_for_hash d r s :
  Reference.marker_for (Reference.ref_hash d r s) ≠ Reference.marker_for d.
Proof.
  unfold Reference.ref_hash. cbn [Reference.marker_for].
  destruct d as [|c d]; cbn [Reference.marker_for]; repeat case_decide; done.
Qed.

(** The reference instance meets the contract. *)
#[export] Instance reference_contract : @BcryptContract Reference.bcrypt.
Proof.
  split.
  - intros d r s. simpl. unfold Reference.ref_hash, Reference.ref_compare.
    by rewrite !bool_decide_eq_true_2.
  - intros d r s.
    change (Reference.ref_hash d r s = Reference.ref_hash (bcrypt_input d) r s).
    unfold Reference.ref_hash. by rewrite marker_for_input, bcrypt_input_idemp.
  - intros d h.
    change (Reference.ref_compare d h = Reference.ref_compare (bcrypt_input d) h).
    unfold Reference.ref_compare.
    by rewrite marker_for_input, bcrypt_input_idemp.
  - intros d r s. simpl. intros Heq. destruct d as [|c d]; [done|].
    injection Heq as Hc _. revert Hc. cbn [Reference.marker_for].
    case_decide; [subst c|]; done.
  - intros d r s. simpl. unfold Reference.ref_hash. done.
  - intros d r s r' s'. simpl.
    pose proof (marker_for_hash d r s) as Hm.
    unfold Reference.ref_compare. unfold Reference.ref_hash at 1.
    rewrite bool_decide_eq_false_2; [done|].
    intros Heq. apply Hm.
    destruct (Reference.ref_hash d r s) as [|c rest] eqn:Hh; [done|].
    pose proof (marker_for_hash (String c rest) r' s') as Hm'.
    revert Heq Hm Hm'. cbn [Reference.marker_for].
    destruct d as [|c' d]; cbn [Reference.marker_for]; repeat case_decide;
      congruence.
Qed.

Lemma refresh_rejects_issued_token_witness :
  is_Some (stored_by_id 1 Reference.with_alice)
  ∧ AuthService.refreshTokens Reference.defaults 1 "T"
      (AuthService.updateRefreshToken 1 "T" Reference.with_alice).2 =
    (inl (UnauthorizedException "Invalid refresh token"),
     (AuthService.updateRefreshToken 1 "T" Reference.with_alice).2).
Proof.
  assert (is_Some (stored_by_id 1 Reference.with_alice)) as Hs by (by eexists).
  split; [exact Hs|].
  exact (proj2 (refresh_rejects_issued_token Reference.defaults 1 "T"
                  Reference.with_alice Hs)).
Defined.

(** The failing run in full: register on the empty world, then present the
    refresh token just returned. *)
Example register_then_refresh_run :
  let out := AuthService.register Reference.defaults Reference.alice_credentials
                                  Reference.empty_world in
  ∃ a, out.1 = inr a
     ∧ (AuthService.refreshTokens Reference.defaults (pu_id (auth_user a))
                                  (tokens_refreshToken (auth_tokens a)) out.2).1 =
       inl (UnauthorizedException "Invalid refresh token").
Proof. simpl. eexists. split; [vm_compute; reflexivity|]. vm_compute. reflexivity. Qed.

Lemma findByEmail_returns_password_hash_witness :
  Reference.alice ∈ users Reference.with_alice
  ∧ ∃ d u', UserService.findByEmail "a@x.com" Reference.with_alice =
              (inr (Some d), Reference.with_alice)
          ∧ u' ∈ users Reference.with_alice
          ∧ email u' = "a@x.com"
          ∧ doc_password d = Some (password u').
Proof.
  assert (Reference.alice ∈ users Reference.with_alice) as Hin by (simpl; left).
  split; [exact Hin|].
  exact (findByEmail_returns_password_hash Reference.with_alice Reference.alice Hin).
Defined.

(** The same lookup, evaluated: the answer carries the stored hash. *)
Example findByEmail_alice_run :
  (UserService.findByEmail "a@x.com" Reference.with_alice).1 =
  inr (Some {| doc_id := 1; doc_email := "a@x.com";
               doc_password := Some (password Reference.alice);
               doc_refreshToken := Some "stored-hash";
               doc_role := USER; doc_isActive := true |}).
Proof. reflexivity. Qed.

(** C3, counterexample.  Bob is stored and inactive; the access-token check
    on a token for Bob does not end in a failure that the filter renders
    with status 401. *)
Lemma inactive_subject_not_unauthorized :
  rejected_subject (sub Reference.bob_payload) Reference.with_bob
  ∧ ¬ surfaced_as_unauthorized
        (AccessTokenStrategy.validate Reference.bob_payload Reference.with_bob).1
        Reference.profile_request None 1700000600.
Proof.
  split; [reflexivity|].
  intros (e & resp & He & Hr & _). vm_compute in He. injection He as <-.
  discriminate Hr.
Qed.

Lemma access_check_rejects_with_plain_error_witness :
  rejected_subject (sub Reference.bob_payload) Reference.with_bob
  ∧ AccessTokenStrategy.validate Reference.bob_payload Reference.with_bob =
    (inl (Error "User not found or inactive"), Reference.with_bob).
Proof.
  assert (rejected_subject (sub Reference.bob_payload) Reference.with_bob) as Hr
    by reflexivity.
  split; [exact Hr|].
  exact (proj1 (access_check_rejects_with_plain_error Reference.bob_payload
                  Reference.with_bob Reference.profile_request None 1700000600 Hr)).
Defined.

(** C4, counterexample.  No record has Carol's email, and she registers
    with an empty password: registration is not as specified, no record is
    created. *)
Lemma register_empty_password_creates_nothing :
  (∀ u, u ∈ users Reference.with_alice → email u ≠ cred_email Scenario.no_password)
  ∧ ¬ registration_as_specified Reference.defaults Scenario.no_password
        Reference.with_alice.
Proof.
  assert (∀ u, u ∈ users Reference.with_alice
               → email u ≠ cred_email Scenario.no_password) as Hfree.
  { intros u Hin. simpl in Hin.
    apply elem_of_cons in Hin as [->|Hin]; [|by apply elem_of_nil in Hin].
    discriminate. }
  split; [exact Hfree|].
  intros Hspec. destruct (Hspec Hfree) as (a & u' & Ha & _).
  vm_compute in Ha. discriminate Ha.
Qed.

(** The run behind it. *)
Example register_empty_password_run :
  AuthService.register Reference.defaults Scenario.no_password Reference.with_alice =
  (inl (Error "User validation failed: password: Path `password` is required."),
   Reference.with_alice).
Proof. vm_compute. reflexivity. Qed.

Lemma register_conflict_or_one_record_witness :
  (∃ u, u ∈ users Reference.with_alice ∧ email u = "a@x.com")
  ∧ AuthService.register Reference.defaults Reference.alice_credentials
                         Reference.with_alice =
    (inl (ConflictException "User with this email already exists"),
     Reference.with_alice)
  ∧ ((∀ u, u ∈ users Reference.with_bob → email u ≠ "c@x.com")
     ∧ "c@x.com" ≠ "" ∧ "opensesame" ≠ "")
  ∧ (∃ u', users (AuthService.register Reference.defaults
                    Scenario.carol_credentials Reference.with_bob).2 =
           [Reference.alice; Reference.inactive_bob; u']
         ∧ email u' = "c@x.com")
  ∧ ((∀ u, u ∈ users Reference.with_alice → email u ≠ "c@x.com")
     ∧ ("c@x.com" = "" ∨ "" = ""))
  ∧ AuthService.register Reference.defaults Scenario.no_password
                         Reference.with_alice =
    (inl (ValidationError "c@x.com" ""), Reference.with_alice).
Proof.
  pose proof (register_conflict_or_one_record Reference.defaults
                Reference.alice_credentials Reference.with_alice) as [Hc _].
  pose proof (register_conflict_or_one_record Reference.defaults
                Scenario.carol_credentials Reference.with_bob) as (_ & Hn & _).
  pose proof (register_conflict_or_one_record Reference.defaults
                Scenario.no_password Reference.with_alice) as (_ & _ & Hv).
  assert (∃ u, u ∈ users Reference.with_alice ∧ email u = "a@x.com") as He.
  { exists Reference.alice. split; [simpl; left | reflexivity]. }
  assert (∀ u, u ∈ users Reference.with_bob → email u ≠ "c@x.com") as Hf.
  { intros u Hin. simpl in Hin. repeat apply elem_of_cons in Hin as [->|Hin];
      [discriminate | discriminate | by apply elem_of_nil in Hin]. }
  assert ("c@x.com" ≠ "") as Hne by discriminate.
  assert ("opensesame" ≠ "") as Hnp by discriminate.
  assert (∀ u, u ∈ users Reference.with_alice → email u ≠ "c@x.com") as Hf'.
  { intros u Hin. simpl in Hin.
    apply elem_of_cons in Hin as [->|Hin]; [|by apply elem_of_nil in Hin].
    discriminate. }
  assert ("c@x.com" = "" ∨ "" = "") as Hbad by (right; reflexivity).
  split; [exact He|]. split; [exact (Hc He)|]. split; [by repeat split|].
  split.
  { destruct (Hn Hf Hne Hnp) as (a & u' & _ & Hus & Hem & _).
    exists u'. split; [exact Hus | exact Hem]. }
  split; [by split|]. exact (Hv Hf' Hbad).
Defined.

(** A password of 76 bytes registers. *)
Lemma long_registers :
  AuthService.register Reference.defaults Scenario.long_credentials
    Reference.with_alice =
  (inr (registration Reference.defaults Scenario.long_credentials
                     Reference.with_alice),
   (AuthService.register Reference.defaults Scenario.long_credentials
      Reference.with_alice).2).
Proof. vm_compute. reflexivity. Qed.

Lemma long_passwords_same_input :
  bcrypt_input Scenario.other_long_password = bcrypt_input Scenario.long_password.
Proof. vm_compute. reflexivity. Qed.


(** The run behind it: the record stored for the 76-byte password, checked
    against the other one. *)
Example long_password_run :
  let out := AuthService.register Reference.defaults Scenario.long_credentials
                                  Reference.with_alice in
  Scenario.other_long_password ≠ Scenario.long_password
  ∧ ∃ u, stored_by_email "l@x.com" out.2 = Some u
       ∧ comparePassword u Scenario.long_password = true
       ∧ comparePassword u Scenario.other_long_password = true.
Proof.
  simpl. split; [intros Heq; vm_compute in Heq; discriminate Heq|].
  eexists. split; [vm_compute; reflexivity|]. split; vm_compute; reflexivity.
Qed.


Lemma login_rejected_no_effect_witness :
  (∃ u, stored_by_email "a@x.com" Reference.with_alice = Some u
      ∧ comparePassword u "wrong" = false)
  ∧ AuthService.login Reference.defaults
      {| cred_email := "a@x.com"; cred_password := "wrong" |} Reference.with_alice =
    (inl (UnauthorizedException "Invalid credentials"), Reference.with_alice).
Proof.
  assert (∃ u, stored_by_email "a@x.com" Reference.with_alice = Some u
             ∧ comparePassword u "wrong" = false) as Hbad.
  { exists Reference.alice. split; reflexivity. }
  split; [exact Hbad|].
  exact (proj1 (login_rejected_no_effect Reference.defaults
                  {| cred_email := "a@x.com"; cred_password := "wrong" |}
                  Reference.with_alice true (or_intror Hbad))).
Defined.

(** C7, counterexample.  Alice has logged out, so no refresh-token hash is
    stored for her; the refresh-token check on a token for her does not fail
    with an Unauthorized exception, and its failure is not one that the
    filter renders with status 401. *)
Lemma logged_out_refresh_check_not_unauthorized :
  stored_hash (sub Reference.alice_payload) Scenario.alice_logged_out = None
  ∧ ¬ denied_as_unauthorized
        (RefreshTokenStrategy.validate Reference.alice_payload
           Scenario.alice_logged_out).1
  ∧ ¬ surfaced_as_unauthorized
        (RefreshTokenStrategy.validate Reference.alice_payload
           Scenario.alice_logged_out).1
        Scenario.refresh_request None 1700000600.
Proof.
  split; [reflexivity|]. split.
  - intros (e & He & Hu). vm_compute in He. injection He as <-.
    discriminate Hu.
  - intros (e & resp & He & Hr & _). vm_compute in He. injection He as <-.
    discriminate Hr.
Qed.

(** The run behind it. *)
Example logged_out_refresh_check_run :
  RefreshTokenStrategy.validate Reference.alice_payload
    Scenario.alice_logged_out =
  (inl (Error "Refresh token not found"), Scenario.alice_logged_out).
Proof. vm_compute. reflexivity. Qed.

Lemma refresh_denied_without_hash_witness :
  stored_hash 1 Scenario.alice_logged_out = None
  ∧ AuthService.refreshTokens Reference.defaults 1 "any"
      Scenario.alice_logged_out =
    (inl (UnauthorizedException "Access denied"), Scenario.alice_logged_out)
  ∧ stored_hash (sub Reference.alice_payload) Scenario.alice_logged_out = None
  ∧ ∃ msg, RefreshTokenStrategy.validate Reference.alice_payload
             Scenario.alice_logged_out =
           (inl (Error msg), Scenario.alice_logged_out).
Proof.
  assert (stored_hash 1 Scenario.alice_logged_out = None) as Hn by reflexivity.
  assert (stored_hash (sub Reference.alice_payload) Scenario.alice_logged_out
          = None) as Hp by reflexivity.
  destruct (refresh_denied_without_hash Reference.defaults 1 "any"
              Reference.alice_payload Scenario.alice_logged_out)
    as (Hd & _ & Hv).
  split; [exact Hn|]. split; [exact (Hd Hn)|]. split; [exact Hp|].
  destruct (Hv Hp) as (msg & _ & Hmsg & _). exists msg. exact Hmsg.
Defined.

(** C9, counterexample.  With both variables set to one value, issuance is
    not as specified: the two tokens are signed with the same key. *)
Lemma shared_secret_one_key :
  ¬ issuance_as_specified Reference.shared_secret_env
      1 "a@x.com" "user" Reference.empty_world.
Proof. intros [_ Hd]. apply Hd. vm_compute. reflexivity. Qed.

(** The pair issued under that deployment. *)
Example shared_secret_run :
  (AuthService.generateTokens
     (authConfig Reference.shared_secret_env) 1 "a@x.com" "user"
     Reference.empty_world).1 =
  inr {| accessToken := "jwt/k3y/15m/1/a@x.com/user/1700000000";
         tokens_refreshToken := "jwt/k3y/7d/1/a@x.com/user/1700000000" |}.
Proof. vm_compute. reflexivity. Qed.

Lemma tokens_signed_per_kind_witness :
  (∅ : gmap string string) !! "ACCESS_TOKEN_SECRET" = None
  ∧ (∅ : gmap string string) !! "REFRESH_TOKEN_SECRET" = None
  ∧ accessTokenSecret (authConfig ∅) ≠ refreshTokenSecret (authConfig ∅).
Proof.
  assert ((∅ : gmap string string) !! "ACCESS_TOKEN_SECRET" = None) as Ha
    by reflexivity.
  assert ((∅ : gmap string string) !! "REFRESH_TOKEN_SECRET" = None) as Hr
    by reflexivity.
  split; [exact Ha|]. split; [exact Hr|].
  exact (proj2 (proj2 (proj2 (tokens_signed_per_kind ∅
                  1 "a@x.com" "user" Reference.empty_world))) Ha Hr).
Defined.

Lemma views_keep_refresh_hash_witness :
  stored_by_id 1 Reference.with_alice = Some Reference.alice
  ∧ ∃ v, UserService.findById 1 Reference.with_alice =
           (inr (Some v), Reference.with_alice)
       ∧ view_refreshToken v = Some "stored-hash".
Proof.
  assert (stored_by_id 1 Reference.with_alice = Some Reference.alice) as Hs
    by reflexivity.
  split; [exact Hs|].
  destruct (proj1 (views_keep_refresh_hash
                     Reference.with_alice) 1 Reference.alice Hs)
    as (v & Hv & _ & Hh).
  exists v. split; [exact Hv|]. apply Hh. reflexivity.
Defined.

(** ** Further properties on concrete worlds *)

Lemma login_issues_for_stored_user_witness :
  stored_by_email "a@x.com" Reference.with_bob = Some Reference.alice
  ∧ comparePassword Reference.alice "secret1" = true
  ∧ ∃ a w', AuthService.login Reference.defaults Reference.alice_credentials
              Reference.with_bob = (inr a, w')
          ∧ pu_id (auth_user a) = 1
          ∧ stored_by_id 2 w' = Some Reference.inactive_bob.
Proof.
  assert (stored_by_email "a@x.com" Reference.with_bob = Some Reference.alice)
    as Hu by reflexivity.
  assert (comparePassword Reference.alice "secret1" = true) as Hc by reflexivity.
  split; [exact Hu|]. split; [exact Hc|].
  destruct (login_issues_for_stored_user Reference.defaults
              Reference.alice_credentials Reference.with_bob Reference.alice
              Hu Hc) as (a & w' & Hl & Hpu & _ & _ & Hj & _).
  exists a, w'. split; [exact Hl|]. split; [rewrite Hpu; reflexivity|].
  rewrite (Hj 2). reflexivity.
Defined.

Lemma alice_registers :
  AuthService.register Reference.defaults Reference.alice_credentials
    Reference.empty_world =
  (inr (registration Reference.defaults Reference.alice_credentials
                     Reference.empty_world),
   Reference.registered_world).
Proof. vm_compute. reflexivity. Qed.

Lemma register_then_login_witness :
  bcrypt_input Scenario.other_long_password = bcrypt_input Scenario.long_password
  ∧ ∃ b w'', AuthService.login Reference.defaults
               {| cred_email := "l@x.com";
                  cred_password := Scenario.other_long_password |}
               (AuthService.register Reference.defaults
                  Scenario.long_credentials Reference.with_alice).2 =
             (inr b, w'')
           ∧ pu_email (auth_user b) = "l@x.com".
Proof.
  split; [exact long_passwords_same_input|].
  destruct (register_then_login Reference.defaults Scenario.long_credentials
              Reference.with_alice _ _ Scenario.other_long_password
              long_registers long_passwords_same_input)
    as (b & w'' & Hl & Hb).
  exists b, w''. split; [exact Hl|]. rewrite Hb. reflexivity.
Defined.

Lemma register_twice_conflict_witness :
  AuthService.register Reference.defaults
    {| cred_email := "a@x.com"; cred_password := "another" |}
    Reference.registered_world =
  (inl (ConflictException "User with this email already exists"),
   Reference.registered_world).
Proof.
  exact (register_twice_conflict Reference.defaults Reference.alice_credentials
           Reference.empty_world _ _ "another" alice_registers).
Defined.

Lemma failures_change_nothing_witness :
  (AuthService.register Reference.defaults Scenario.no_password
     Reference.with_alice).1 = inl (ValidationError "c@x.com" "")
  ∧ (AuthService.register Reference.defaults Scenario.no_password
       Reference.with_alice).2 = Reference.with_alice
  ∧ (AuthService.login Reference.defaults
       {| cred_email := "a@x.com"; cred_password := "wrong" |}
       Reference.with_alice).1 =
      inl (UnauthorizedException "Invalid credentials")
  ∧ (AuthService.login Reference.defaults
       {| cred_email := "a@x.com"; cred_password := "wrong" |}
       Reference.with_alice).2 = Reference.with_alice.
Proof.
  assert ((AuthService.register Reference.defaults Scenario.no_password
             Reference.with_alice).1 = inl (ValidationError "c@x.com" ""))
    as Hv by reflexivity.
  assert ((AuthService.login Reference.defaults
             {| cred_email := "a@x.com"; cred_password := "wrong" |}
             Reference.with_alice).1 =
          inl (UnauthorizedException "Invalid credentials")) as He by reflexivity.
  destruct (failures_change_nothing Reference.defaults Reference.with_alice)
    as (Hreg & _ & Hlog & _).
  split; [exact Hv|]. split; [exact (proj1 (Hreg _ _ Hv))|].
  split; [exact He|]. exact (proj1 (Hlog _ _ He)).
Defined.

Lemma busy_world_reachable :
  reachable Reference.defaults Scenario.busy_world.
Proof.
  unfold Scenario.busy_world, Scenario.alice_back, Scenario.alice_out,
    Scenario.carol_in, Scenario.alice_in.
  apply reach_login, reach_logout, reach_register, reach_register.
  apply (reach_empty _ 0 1700000000).
Qed.

Lemma busy_history :
  history Reference.defaults Scenario.busy_world Scenario.busy_registrations
    Scenario.busy_held.
Proof.
  unfold Scenario.busy_world, Scenario.busy_registrations, Scenario.busy_held,
    Scenario.alice_back, Scenario.alice_out, Scenario.carol_in,
    Scenario.alice_in.
  apply hist_login, hist_logout, hist_register, hist_register.
  apply (hist_empty _ 0 1700000000).
Qed.

Lemma reachable_unique_emails_witness :
  reachable Reference.defaults Scenario.busy_world
  ∧ email <$> users Scenario.busy_world = ["a@x.com"; "c@x.com"]
  ∧ NoDup (email <$> users Scenario.busy_world).
Proof.
  split; [exact busy_world_reachable|]. split; [vm_compute; reflexivity|].
  exact (proj1 (reachable_unique_emails Reference.defaults Scenario.busy_world
                  busy_world_reachable)).
Defined.

Lemma registered_can_always_login_witness :
  history Reference.defaults Scenario.busy_world Scenario.busy_registrations
    Scenario.busy_held
  ∧ Scenario.carol_credentials ∈ Scenario.busy_registrations
  ∧ (∃ u, stored_by_email "c@x.com" Scenario.busy_world = Some u
        ∧ password u ≠ "opensesame")
  ∧ ∃ a w', AuthService.login Reference.defaults Scenario.carol_credentials
              Scenario.busy_world = (inr a, w')
          ∧ pu_email (auth_user a) = "c@x.com".
Proof.
  assert (Scenario.carol_credentials ∈ Scenario.busy_registrations) as Hin.
  { vm_compute. left. }
  split; [exact busy_history|]. split; [exact Hin|].
  destruct (registered_can_always_login Reference.defaults Scenario.busy_world
              Scenario.busy_registrations Scenario.busy_held
              Scenario.carol_credentials busy_history Hin)
    as [(u & n & Hu & _ & Hne) Hlogin].
  split; [exists u; split; [exact Hu | exact Hne] | exact Hlogin].
Defined.

Lemma held_token_is_refused_witness :
  let held := tokens_refreshToken
                (tokens_for Reference.defaults 1 "a@x.com" "user" 1700000000) in
  history Reference.defaults Scenario.busy_world Scenario.busy_registrations
    Scenario.busy_held
  ∧ Scenario.busy_held !! (1 : ObjectId) = Some held
  ∧ AuthService.refreshTokens Reference.defaults 1 held Scenario.busy_world =
    (inl (UnauthorizedException "Invalid refresh token"), Scenario.busy_world).
Proof.
  intros held.
  assert (Scenario.busy_held !! (1 : ObjectId) = Some held) as Hl
    by (vm_compute; reflexivity).
  split; [exact busy_history|]. split; [exact Hl|].
  pose proof (held_token_is_refused Reference.defaults Scenario.busy_world
                Scenario.busy_registrations Scenario.busy_held 1 busy_history)
    as Hr.
  rewrite Hl in Hr. exact Hr.
Defined.

Lemma other_users_untouched_witness :
  (2 : ObjectId) ≠ 1
  ∧ stored_by_id 2 (AuthService.logout 1 Reference.with_bob).2 =
    stored_by_id 2 Reference.with_bob.
Proof.
  assert ((2 : ObjectId) ≠ 1) as Hne by lia.
  split; [exact Hne|].
  exact (proj1 (other_users_untouched Reference.defaults 1 2
                  Reference.with_bob Hne)).
Defined.

Lemma unknown_id_is_noop_witness :
  stored_by_id 9 Reference.with_alice = None
  ∧ AuthService.logout 9 Reference.with_alice =
    (inr "Logged out successfully", Reference.with_alice).
Proof.
  assert (stored_by_id 9 Reference.with_alice = None) as Hn by reflexivity.
  split; [exact Hn|].
  exact (proj1 (unknown_id_is_noop 9 Reference.with_alice Hn)).
Defined.

Lemma stored_token_round_trip_witness :
  is_Some (stored_by_id 1 Reference.with_alice)
  ∧ bcrypt_input Scenario.other_long_password = bcrypt_input Scenario.long_password
  ∧ ∃ tokens w2,
      AuthService.refreshTokens Reference.defaults 1 Scenario.other_long_password
        (UserService.updateRefreshToken 1 Scenario.long_password
           Reference.with_alice).2 =
      (inr tokens, w2).
Proof.
  assert (is_Some (stored_by_id 1 Reference.with_alice)) as Hs by (by eexists).
  split; [exact Hs|]. split; [exact long_passwords_same_input|].
  exact (stored_token_round_trip Reference.defaults 1 Scenario.long_password
           Scenario.other_long_password Reference.with_alice Hs
           long_passwords_same_input).
Defined.

Lemma guards_accept_iff_witness :
  (∃ u, stored_by_id (sub Reference.alice_payload) Reference.with_bob = Some u
      ∧ isActive u = true)
  ∧ AccessTokenStrategy.validate Reference.alice_payload Reference.with_bob =
    (inr (principal Reference.alice_payload), Reference.with_bob).
Proof.
  assert (∃ u, stored_by_id (sub Reference.alice_payload) Reference.with_bob = Some u
             ∧ isActive u = true) as Hu.
  { exists Reference.alice. split; reflexivity. }
  split; [exact Hu|].
  exact (proj1 (proj1 (guards_accept_iff Reference.alice_payload
                         Reference.with_bob)) Hu).
Defined.

Lemma local_guard_agrees_with_login_witness :
  (∃ d, (LocalStrategy.validate "a@x.com" "secret1" Reference.with_alice).1 = inr d)
  ∧ ∃ a, (AuthService.login Reference.defaults Reference.alice_credentials
            Reference.with_alice).1 = inr a.
Proof.
  assert (∃ d, (LocalStrategy.validate "a@x.com" "secret1"
                  Reference.with_alice).1 = inr d) as Hd.
  { eexists. reflexivity. }
  split; [exact Hd|].
  exact (proj1 (proj1 (local_guard_agrees_with_login Reference.defaults
                         "a@x.com" "secret1" Reference.with_alice)) Hd).
Defined.

Lemma createUser_then_lookup_witness :
  ∃ v w', UserService.createUser Reference.moderator_dto Reference.with_alice =
            (inr v, w')
        ∧ UserService.findById (view_id v) w' = (inr (Some v), w')
        ∧ view_role v = "moderator".
Proof.
  eexists _, _.
  assert (UserService.createUser Reference.moderator_dto Reference.with_alice =
          (inr (UserService.withoutPassword
                  {| doc_id := 2; doc_email := "m@x.com"; doc_password := None;
                     doc_refreshToken := None; doc_role := MODERATOR;
                     doc_isActive := true |}),
           (UserService.createUser Reference.moderator_dto Reference.with_alice).2))
    as Hc by reflexivity.
  destruct (createUser_then_lookup Reference.moderator_dto Reference.with_alice
              _ _ Hc) as (Hf & _ & _ & Hr & _).
  split; [exact Hc|]. split; [exact Hf|]. exact Hr.
Defined.

Lemma authConfig_defaults_and_overrides_witness :
  (∅ : gmap string string) !! "ACCESS_TOKEN_SECRET" ∈ [None; Some ""]
  ∧ accessTokenSecret (authConfig ∅) = "default_access_token_secret"
  ∧ Reference.shared_secret_env !! "REFRESH_TOKEN_SECRET" = Some "k3y"
  ∧ refreshTokenSecret (authConfig Reference.shared_secret_env) = "k3y".
Proof.
  assert ((∅ : gmap string string) !! "ACCESS_TOKEN_SECRET" ∈ [None; Some ""])
    as Hd by (rewrite lookup_empty; left).
  assert (Reference.shared_secret_env !! "REFRESH_TOKEN_SECRET" = Some "k3y")
    as Hs by (vm_compute; reflexivity).
  assert ("k3y" ≠ "") as Hne by discriminate.
  destruct (authConfig_defaults_and_overrides ∅) as (_ & Ha & _).
  destruct (authConfig_defaults_and_overrides Reference.shared_secret_env)
    as (_ & _ & _ & _ & _ & Ho).
  split; [exact Hd|]. split; [exact (Ha Hd)|]. split; [exact Hs|].
  exact (proj1 (proj2 (proj2 (Ho "k3y" Hne))) Hs).
Defined.

Lemma filter_envelope_witness :
  Some "production" = Some "production"
  ∧ env_stack (res_json (HttpExceptionFilter.catch Reference.unauthorized
                           Reference.profile_request (Some "production")
                           1700000600)) = None.
Proof.
  split; [reflexivity|].
  exact (proj2 (proj1 (proj2 (proj2 (proj2 (proj2
           (filter_envelope Reference.unauthorized Reference.profile_request
              (Some "production") 1700000600))))) eq_refl)).
Defined.

Lemma logout_revokes_refresh_only_witness :
  sub Reference.alice_payload = 1
  ∧ ∃ msg, RefreshTokenStrategy.validate Reference.alice_payload
             (AuthService.logout 1 Reference.with_alice).2 =
           (inl (Error msg), (AuthService.logout 1 Reference.with_alice).2).
Proof.
  assert (sub Reference.alice_payload = 1) as Hs by reflexivity.
  split; [exact Hs|].
  exact (proj2 (logout_revokes_refresh_only 1 Reference.alice_payload
                  Reference.with_alice) Hs).
Defined.
